(** * OpenLCH inference dashboard: the rolling buffers of [plot_dashboard]

    A shallow embedding of [src/inference/dashboard.py].  The closure
    [update] owns seven Python lists (the rolling buffers), reads a
    multiprocessing queue and redraws three matplotlib charts.  Python
    values are embedded as [pyval]; Python floats are embedded as
    rationals [Q] (finite floats, exact arithmetic), so the order
    comparisons of the pruning loop are the ones on [Q].  Exceptions are
    explicit: every step returns a [result] together with the state it
    left behind, because the lists are mutated in place. *)

From Stdlib Require Import String Ascii QArith Qminmax List Sorted Bool Arith Lia Lqa.
Import ListNotations.

Local Open Scope string_scope.
Local Open Scope Q_scope.

(** ** Python values and exceptions *)

#[warnings="-register-all"]
Inductive pyval : Type :=
| PyNum (q : Q)
| PyStr (s : string)
| PySeq (items : list pyval)
| PyNone.

Inductive exn : Type :=
| TypeError (msg : string)
| ValueError (msg : string)
| IndexError (msg : string).

Inductive result (A : Type) : Type :=
| Ok (a : A)
| Raise (e : exn).

Arguments Ok {A} a.
Arguments Raise {A} e.

(** Iterating a value, as tuple unpacking does: tuples and lists give
    their items, a string gives its one-character strings, numbers and
    [None] are not iterable. *)
Definition py_iter (v : pyval) : result (list pyval) :=
  match v with
  | PySeq items => Ok items
  | PyStr s => Ok (map (fun c => PyStr (String c EmptyString)) (list_ascii_of_string s))
  | PyNum _ | PyNone => Raise (TypeError "cannot unpack non-iterable object")
  end.

(** [a, b = v] *)
Definition unpack2 (v : pyval) : result (pyval * pyval) :=
  match py_iter v with
  | Raise e => Raise e
  | Ok [a; b] => Ok (a, b)
  | Ok (_ :: _ :: _ :: _) => Raise (ValueError "too many values to unpack (expected 2)")
  | Ok _ => Raise (ValueError "not enough values to unpack (expected 2)")
  end.

(** [a, b, c = v] *)
Definition unpack3 (v : pyval) : result (pyval * pyval * pyval) :=
  match py_iter v with
  | Raise e => Raise e
  | Ok [a; b; c] => Ok (a, b, c)
  | Ok (_ :: _ :: _ :: _ :: _) => Raise (ValueError "too many values to unpack (expected 3)")
  | Ok _ => Raise (ValueError "not enough values to unpack (expected 3)")
  end.

(** [v == 'literal'] *)
Definition py_eq_str (v : pyval) (literal : string) : bool :=
  match v with
  | PyStr s => String.eqb s literal
  | _ => false
  end.

(** [v[i]] *)
Definition py_getitem (v : pyval) (i : nat) : result pyval :=
  match v with
  | PySeq items =>
      match nth_error items i with
      | Some x => Ok x
      | None => Raise (IndexError "index out of range")
      end
  | PyStr s =>
      match nth_error (list_ascii_of_string s) i with
      | Some c => Ok (PyStr (String c EmptyString))
      | None => Raise (IndexError "string index out of range")
      end
  | PyNum _ | PyNone => Raise (TypeError "object is not subscriptable")
  end.

(** ** The rolling buffers *)

Definition max_time_window : Q := 1.

Record buffers : Type := mkBuffers {
  time_data : list pyval;
  freq_data : list pyval;
  position_time : list pyval;
  positions : list pyval;
  desired_positions : list pyval;
  velocity_time : list pyval;
  velocities : list pyval
}.

Definition empty_buffers : buffers := mkBuffers [] [] [] [] [] [] [].

Definition set_frequency (ta fd : list pyval) (b : buffers) : buffers :=
  mkBuffers ta fd (position_time b) (positions b) (desired_positions b)
            (velocity_time b) (velocities b).

Definition set_positions (ta p dp : list pyval) (b : buffers) : buffers :=
  mkBuffers (time_data b) (freq_data b) ta p dp (velocity_time b) (velocities b).

Definition set_velocities (ta v : list pyval) (b : buffers) : buffers :=
  mkBuffers (time_data b) (freq_data b) (position_time b) (positions b)
            (desired_positions b) ta v.

(** ** [prune_data] *)

(** The loop test [(current_time - time_array[0]) > max_time_window];
    the subtraction raises on a timestamp that is not a number. *)
Definition too_old (current_time : Q) (t0 : pyval) : result bool :=
  match t0 with
  | PyNum t => Ok (negb (Qle_bool (current_time - t) max_time_window))
  | _ => Raise (TypeError "unsupported operand type(s) for -")
  end.

(** [for data_array in data_arrays: data_array.pop(0)]; the arrays
    before an empty one are already popped when [pop] raises. *)
Fixpoint pop_front_each (data_arrays : list (list pyval))
  : result unit * list (list pyval) :=
  match data_arrays with
  | [] => (Ok tt, [])
  | [] :: others => (Raise (IndexError "pop from empty list"), [] :: others)
  | (_ :: rest) :: others =>
      let '(r, others') := pop_front_each others in (r, rest :: others')
  end.

(** The [while] loop of [prune_data]: each iteration pops the front of
    [time_array], so the recursion is on its tail.  The arrays are
    returned as the loop left them, also when it raised. *)
Fixpoint prune_data (current_time : Q) (time_array : list pyval)
    (data_arrays : list (list pyval))
  : result unit * (list pyval * list (list pyval)) :=
  match time_array with
  | [] => (Ok tt, ([], data_arrays))
  | t0 :: rest =>
      match too_old current_time t0 with
      | Raise e => (Raise e, (time_array, data_arrays))
      | Ok false => (Ok tt, (time_array, data_arrays))
      | Ok true =>
          match pop_front_each data_arrays with
          | (Raise e, popped) => (Raise e, (rest, popped))
          | (Ok _, popped) => prune_data current_time rest popped
          end
      end
  end.

(** The same loop with an explicit iteration budget and a count of the
    iterations executed; [None] when the budget runs out. *)
Fixpoint prune_data_loop (fuel : nat) (current_time : Q) (time_array : list pyval)
    (data_arrays : list (list pyval)) (iterations : nat) {struct fuel}
  : option (result unit * (list pyval * list (list pyval)) * nat) :=
  match time_array with
  | [] => Some (Ok tt, ([], data_arrays), iterations)
  | t0 :: rest =>
      match too_old current_time t0 with
      | Raise e => Some (Raise e, (time_array, data_arrays), iterations)
      | Ok false => Some (Ok tt, (time_array, data_arrays), iterations)
      | Ok true =>
          match fuel with
          | O => None
          | S fuel' =>
              match pop_front_each data_arrays with
              | (Raise e, popped) => Some (Raise e, (rest, popped), S iterations)
              | (Ok _, popped) =>
                  prune_data_loop fuel' current_time rest popped (S iterations)
              end
          end
      end
  end.

(** ** Charts *)

(** A y-limit accumulator: [float('inf')], [float('-inf')] or a finite
    value. *)
Inductive limit : Type :=
| NegInf
| Fin (q : Q)
| PosInf.

(** [numpy.pi], the double nearest to pi, as an exact rational. *)
Definition np_pi : Q := 884279719003555 # 281474976710656.

Definition rad2deg (rad : limit) : limit :=
  match rad with
  | Fin q => Fin (q * 180 / np_pi)
  | NegInf => NegInf
  | PosInf => PosInf
  end.

(** What an axes object shows.  [clear()] resets all of it. *)
Inductive artist : Type :=
| HLine (y : Q) (label : string)
| Line (xs ys : list pyval) (dashed : bool) (label : string) (color : option nat).

Record axes : Type := mkAxes {
  title : string;
  xlabel : string;
  ylabel : string;
  artists : list artist;
  xlim : option (Q * Q);
  ylim : option (limit * limit);
  grid : bool;
  legend : bool
}.

Definition clear (_ : axes) : axes := mkAxes "" "" "" [] None None false false.
Definition set_title (s : string) (a : axes) : axes :=
  mkAxes s (xlabel a) (ylabel a) (artists a) (xlim a) (ylim a) (grid a) (legend a).
Definition set_xlabel (s : string) (a : axes) : axes :=
  mkAxes (title a) s (ylabel a) (artists a) (xlim a) (ylim a) (grid a) (legend a).
Definition set_ylabel (s : string) (a : axes) : axes :=
  mkAxes (title a) (xlabel a) s (artists a) (xlim a) (ylim a) (grid a) (legend a).
Definition add_artist (x : artist) (a : axes) : axes :=
  mkAxes (title a) (xlabel a) (ylabel a) (artists a ++ [x]) (xlim a) (ylim a)
         (grid a) (legend a).
Definition set_xlim (lo hi : Q) (a : axes) : axes :=
  mkAxes (title a) (xlabel a) (ylabel a) (artists a) (Some (lo, hi)) (ylim a)
         (grid a) (legend a).
Definition set_ylim (lo hi : limit) (a : axes) : axes :=
  mkAxes (title a) (xlabel a) (ylabel a) (artists a) (xlim a) (Some (lo, hi))
         (grid a) (legend a).
Definition set_grid (a : axes) : axes :=
  mkAxes (title a) (xlabel a) (ylabel a) (artists a) (xlim a) (ylim a) true (legend a).
Definition set_legend (a : axes) : axes :=
  mkAxes (title a) (xlabel a) (ylabel a) (artists a) (xlim a) (ylim a) (grid a) true.

Definition joint_names : list string :=
  [ "left_hip_pitch"; "left_hip_yaw"; "left_hip_roll"; "left_knee_pitch";
    "left_ankle_pitch"; "right_hip_pitch"; "right_hip_yaw"; "right_hip_roll";
    "right_knee_pitch"; "right_ankle_pitch" ].

Definition num_joints : nat := List.length joint_names.

Definition joint_name (i : nat) : string := nth i joint_names "".

(** ** The state closed over by [update] *)

Record state : Type := mkState {
  bufs : buffers;
  data_queue : list pyval;
  ax_freq : axes;
  ax_pos : axes;
  ax_pos_deg : axes;
  ax_vel : axes;
  ax_vel_deg : axes;
  subplot_right_pos : option Q;
  subplot_right_vel : option Q;
  stdout : list exn
}.

Definition with_bufs (b : buffers) (st : state) : state :=
  mkState b (data_queue st) (ax_freq st) (ax_pos st) (ax_pos_deg st) (ax_vel st)
          (ax_vel_deg st) (subplot_right_pos st) (subplot_right_vel st) (stdout st).
Definition with_queue (q : list pyval) (st : state) : state :=
  mkState (bufs st) q (ax_freq st) (ax_pos st) (ax_pos_deg st) (ax_vel st)
          (ax_vel_deg st) (subplot_right_pos st) (subplot_right_vel st) (stdout st).
Definition with_ax_freq (a : axes) (st : state) : state :=
  mkState (bufs st) (data_queue st) a (ax_pos st) (ax_pos_deg st) (ax_vel st)
          (ax_vel_deg st) (subplot_right_pos st) (subplot_right_vel st) (stdout st).
Definition with_ax_pos (a : axes) (st : state) : state :=
  mkState (bufs st) (data_queue st) (ax_freq st) a (ax_pos_deg st) (ax_vel st)
          (ax_vel_deg st) (subplot_right_pos st) (subplot_right_vel st) (stdout st).
Definition with_ax_pos_deg (a : axes) (st : state) : state :=
  mkState (bufs st) (data_queue st) (ax_freq st) (ax_pos st) a (ax_vel st)
          (ax_vel_deg st) (subplot_right_pos st) (subplot_right_vel st) (stdout st).
Definition with_ax_vel (a : axes) (st : state) : state :=
  mkState (bufs st) (data_queue st) (ax_freq st) (ax_pos st) (ax_pos_deg st) a
          (ax_vel_deg st) (subplot_right_pos st) (subplot_right_vel st) (stdout st).
Definition with_ax_vel_deg (a : axes) (st : state) : state :=
  mkState (bufs st) (data_queue st) (ax_freq st) (ax_pos st) (ax_pos_deg st) (ax_vel st)
          a (subplot_right_pos st) (subplot_right_vel st) (stdout st).
Definition with_layout (st : state) : state :=
  mkState (bufs st) (data_queue st) (ax_freq st) (ax_pos st) (ax_pos_deg st) (ax_vel st)
          (ax_vel_deg st) (Some (85 # 100)) (Some (85 # 100)) (stdout st).
(** [print(f"Error processing queue data: {e}")] *)
Definition print_error (e : exn) (st : state) : state :=
  mkState (bufs st) (data_queue st) (ax_freq st) (ax_pos st) (ax_pos_deg st) (ax_vel st)
          (ax_vel_deg st) (subplot_right_pos st) (subplot_right_vel st) (stdout st ++ [e]).

(** A small state-and-exception monad for the body of [update]. *)
Definition M (A : Type) : Type := state -> result A * state.

Definition ret {A : Type} (a : A) : M A := fun st => (Ok a, st).
Definition bind {A B : Type} (m : M A) (f : A -> M B) : M B :=
  fun st =>
    match m st with
    | (Ok a, st') => f a st'
    | (Raise e, st') => (Raise e, st')
    end.
Definition modify (f : state -> state) : M unit := fun st => (Ok tt, f st).

Notation "m ;; k" := (bind m (fun _ => k))
  (at level 61, right associativity).
Notation "'let!' x ':=' m 'in' k" := (bind m (fun x => k))
  (at level 61, x pattern, m at next level, right associativity).

Definition lift {A : Type} (r : result A) : M A := fun st => (r, st).

(** Truth value of a list: non-empty. *)
Definition truthy {A : Type} (l : list A) : bool :=
  match l with
  | [] => false
  | _ :: _ => true
  end.

(** ** Prune step: the three calls of [prune_data] *)

Definition prune_frequency (current_time : Q) : M unit :=
  fun st =>
    let b := bufs st in
    let '(r, (ta, das)) := prune_data current_time (time_data b) [freq_data b] in
    (r, with_bufs (set_frequency ta (nth 0 das []) b) st).

Definition prune_positions (current_time : Q) : M unit :=
  fun st =>
    let b := bufs st in
    let '(r, (ta, das)) :=
      prune_data current_time (position_time b) [positions b; desired_positions b] in
    (r, with_bufs (set_positions ta (nth 0 das []) (nth 1 das []) b) st).

Definition prune_velocities (current_time : Q) : M unit :=
  fun st =>
    let b := bufs st in
    let '(r, (ta, das)) := prune_data current_time (velocity_time b) [velocities b] in
    (r, with_bufs (set_velocities ta (nth 0 das []) b) st).

Definition prune_all (current_time : Q) : M unit :=
  prune_frequency current_time ;;
  prune_positions current_time ;;
  prune_velocities current_time.

(** ** Ingest step: the body of the [try] and the draining loop *)

Definition append_frequency (t freq : pyval) (b : buffers) : buffers :=
  set_frequency (time_data b ++ [t]) (freq_data b ++ [freq]) b.

Definition append_positions (t pos desired_pos : pyval) (b : buffers) : buffers :=
  set_positions (position_time b ++ [t]) (positions b ++ [pos])
                (desired_positions b ++ [desired_pos]) b.

Definition append_velocities (t vel : pyval) (b : buffers) : buffers :=
  set_velocities (velocity_time b ++ [t]) (velocities b ++ [vel]) b.

(** The statements under [try], for the item [get_nowait] returned. *)
Definition ingest (item : pyval) : M unit :=
  let! (data_type, data) := lift (unpack2 item) in
  if py_eq_str data_type "frequency" then
    let! (t, freq) := lift (unpack2 data) in
    modify (fun st => with_bufs (append_frequency t freq (bufs st)) st)
  else if py_eq_str data_type "positions" then
    let! (t, pos, desired_pos) := lift (unpack3 data) in
    modify (fun st => with_bufs (append_positions t pos desired_pos (bufs st)) st)
  else if py_eq_str data_type "velocities" then
    let! (t, vel) := lift (unpack2 data) in
    modify (fun st => with_bufs (append_velocities t vel (bufs st)) st)
  else ret tt.

(** [while not data_queue.empty(): try: ... except Exception as e: print(...)],
    over the items the queue holds; each [get_nowait] takes one off. *)
Fixpoint drain_loop (pending : list pyval) (st : state) : state :=
  match pending with
  | [] => st
  | item :: rest =>
      match ingest item (with_queue rest st) with
      | (Ok _, st') => drain_loop rest st'
      | (Raise e, st') => drain_loop rest (print_error e st')
      end
  end.

Definition drain : M unit := fun st => (Ok tt, drain_loop (data_queue st) st).

(** ** Redraw step *)

Definition Qlt_bool (x y : Q) : bool := negb (Qle_bool y x).

(** The numbers of a list; comparing anything else with a float raises. *)
Fixpoint numbers (xs : list pyval) : result (list Q) :=
  match xs with
  | [] => Ok []
  | PyNum q :: rest =>
      match numbers rest with
      | Ok qs => Ok (q :: qs)
      | Raise e => Raise e
      end
  | _ :: _ => Raise (TypeError "'<' not supported between instances")
  end.

(** Builtin [min] and [max] over a list: the first least (greatest)
    element; empty argument raises. *)
Definition py_min (xs : list pyval) : result Q :=
  match numbers xs with
  | Raise e => Raise e
  | Ok [] => Raise (ValueError "min() arg is an empty sequence")
  | Ok (q :: qs) => Ok (fold_left (fun m x => if Qlt_bool x m then x else m) qs q)
  end.

Definition py_max (xs : list pyval) : result Q :=
  match numbers xs with
  | Raise e => Raise e
  | Ok [] => Raise (ValueError "max() arg is an empty sequence")
  | Ok (q :: qs) => Ok (fold_left (fun m x => if Qlt_bool m x then x else m) qs q)
  end.

(** [min(y_min_rad, m)] and [max(y_max_rad, m)] *)
Definition limit_min (acc : limit) (m : Q) : limit :=
  match acc with
  | PosInf => Fin m
  | NegInf => NegInf
  | Fin a => if Qlt_bool m a then Fin m else Fin a
  end.

Definition limit_max (acc : limit) (m : Q) : limit :=
  match acc with
  | NegInf => Fin m
  | PosInf => PosInf
  | Fin a => if Qlt_bool a m then Fin m else Fin a
  end.

(** [[row[i] for row in rows]] *)
Fixpoint column (i : nat) (rows : list pyval) : result (list pyval) :=
  match rows with
  | [] => Ok []
  | row :: rest =>
      match py_getitem row i with
      | Raise e => Raise e
      | Ok x =>
          match column i rest with
          | Raise e => Raise e
          | Ok xs => Ok (x :: xs)
          end
      end
  end.

Definition redraw_frequency (current_time : Q) : M unit :=
  fun st =>
    let b := bufs st in
    if truthy (time_data b) && truthy (freq_data b) then
      let a := clear (ax_freq st) in
      let a := set_title "Inference Speed Over Time" a in
      let a := set_xlabel "Time (s)" a in
      let a := set_ylabel "Frequency (Hz)" a in
      let a := add_artist (HLine 50 "50 Hz Reference") a in
      let a := add_artist (Line (time_data b) (freq_data b) false "Actual Frequency" None) a in
      let a := set_legend a in
      let a := set_xlim (current_time - max_time_window) current_time a in
      let a := set_ylim (Fin 0) (Fin 60) a in
      (Ok tt, with_ax_freq a st)
    else (Ok tt, st).

(** The [for i in range(num_joints)] loop of the position chart. *)
Fixpoint plot_positions (joints : list nat) (y_min_rad y_max_rad : limit)
  : M (limit * limit) :=
  match joints with
  | [] => ret (y_min_rad, y_max_rad)
  | i :: rest =>
      fun st =>
        let b := bufs st in
        match column i (positions b) with
        | Raise e => (Raise e, st)
        | Ok joint_actual_positions =>
        match column i (desired_positions b) with
        | Raise e => (Raise e, st)
        | Ok joint_desired_positions =>
        match py_min (joint_actual_positions ++ joint_desired_positions) with
        | Raise e => (Raise e, st)
        | Ok lo =>
        match py_max (joint_actual_positions ++ joint_desired_positions) with
        | Raise e => (Raise e, st)
        | Ok hi =>
            let a := ax_pos st in
            let a := add_artist (Line (position_time b) joint_actual_positions false
                                      (joint_name i ++ " Actual") (Some i)) a in
            let a := add_artist (Line (position_time b) joint_desired_positions true
                                      (joint_name i ++ " Desired") (Some i)) a in
            plot_positions rest (limit_min y_min_rad lo) (limit_max y_max_rad hi)
                           (with_ax_pos a st)
        end end end end
  end.

Definition redraw_positions (current_time : Q) : M unit :=
  fun st =>
    let b := bufs st in
    if truthy (position_time b) && truthy (positions b) && truthy (desired_positions b) then
      let a := clear (ax_pos st) in
      let d := clear (ax_pos_deg st) in
      let a := set_title "Joint Positions Over Time" a in
      let a := set_xlabel "Time (s)" a in
      let a := set_ylabel "Position (rad)" a in
      let d := set_ylabel "Position (deg)" d in
      (let! (y_min_rad, y_max_rad) :=
         plot_positions (seq 0 num_joints) PosInf NegInf in
       modify (fun st =>
         let a := set_xlim (current_time - max_time_window) current_time (ax_pos st) in
         let a := set_ylim y_min_rad y_max_rad a in
         let d := set_ylim (rad2deg y_min_rad) (rad2deg y_max_rad) (ax_pos_deg st) in
         let a := set_grid a in
         let a := set_legend a in
         with_ax_pos_deg d (with_ax_pos a st)))
      (with_ax_pos_deg d (with_ax_pos a st))
    else (Ok tt, st).

(** The [for i in range(num_joints)] loop of the velocity chart. *)
Fixpoint plot_velocities (joints : list nat) (y_min_rad y_max_rad : limit)
  : M (limit * limit) :=
  match joints with
  | [] => ret (y_min_rad, y_max_rad)
  | i :: rest =>
      fun st =>
        let b := bufs st in
        match column i (velocities b) with
        | Raise e => (Raise e, st)
        | Ok joint_velocities =>
        match py_min joint_velocities with
        | Raise e => (Raise e, st)
        | Ok lo =>
        match py_max joint_velocities with
        | Raise e => (Raise e, st)
        | Ok hi =>
            let a := ax_vel st in
            let a := add_artist (Line (velocity_time b) joint_velocities false
                                      (joint_name i) (Some i)) a in
            plot_velocities rest (limit_min y_min_rad lo) (limit_max y_max_rad hi)
                            (with_ax_vel a st)
        end end end
  end.

Definition redraw_velocities (current_time : Q) : M unit :=
  fun st =>
    let b := bufs st in
    if truthy (velocity_time b) && truthy (velocities b) then
      let a := clear (ax_vel st) in
      let d := clear (ax_vel_deg st) in
      let a := set_title "Joint Velocities Over Time" a in
      let a := set_xlabel "Time (s)" a in
      let a := set_ylabel "Velocity (rad/s)" a in
      let d := set_ylabel "Velocity (deg/s)" d in
      (let! (y_min_rad, y_max_rad) :=
         plot_velocities (seq 0 num_joints) PosInf NegInf in
       modify (fun st =>
         let a := set_xlim (current_time - max_time_window) current_time (ax_vel st) in
         let a := set_ylim y_min_rad y_max_rad a in
         let d := set_ylim (rad2deg y_min_rad) (rad2deg y_max_rad) (ax_vel_deg st) in
         let a := set_grid a in
         let a := set_legend a in
         with_ax_vel_deg d (with_ax_vel a st)))
      (with_ax_vel_deg d (with_ax_vel a st))
    else (Ok tt, st).

Definition redraw_all (current_time : Q) : M unit :=
  redraw_frequency current_time ;;
  redraw_positions current_time ;;
  redraw_velocities current_time ;;
  modify with_layout.

(** ** [update] *)

(** One call of [update], with [current_time] the value [time.time()]
    returned. *)
Definition update (current_time : Q) : M unit :=
  prune_all current_time ;;
  drain ;;
  redraw_all current_time.

(** The order the specification words give: tick, ingest, prune, redraw. *)
Definition update_ingest_first (current_time : Q) : M unit :=
  drain ;;
  prune_all current_time ;;
  redraw_all current_time.

(** ** The state [plot_dashboard] builds before the first tick *)

Fixpoint initial_position_lines (joints : list nat) : list artist :=
  match joints with
  | [] => []
  | i :: rest =>
      Line [] [] false (joint_name i ++ " Actual") (Some i)
      :: Line [] [] true (joint_name i ++ " Desired") (Some i)
      :: initial_position_lines rest
  end.

Definition initial_velocity_lines (joints : list nat) : list artist :=
  map (fun i => Line [] [] false (joint_name i) (Some i)) joints.

Definition initial_state : state :=
  mkState empty_buffers []
    (mkAxes "Inference Speed Over Time" "Time (s)" "Frequency (Hz)"
            [HLine 50 "50 Hz Reference"; Line [] [] false "Actual Frequency" None]
            None None false true)
    (mkAxes "Joint Positions Over Time" "Time (s)" "Position (rad)"
            (initial_position_lines (seq 0 num_joints)) None None false true)
    (mkAxes "" "" "Position (deg)" [] None None false false)
    (mkAxes "Joint Velocities Over Time" "Time (s)" "Velocity (rad/s)"
            (initial_velocity_lines (seq 0 num_joints)) None None false true)
    (mkAxes "" "" "Velocity (deg/s)" [] None None false false)
    None None [].

(** ** Samples, as the producer sends them *)

Inductive Sample : Type :=
| Frequency (t hz : Q)
| JointState (t : Q) (actual desired : list Q)
| JointRate (t : Q) (rates : list Q).

Definition encode (s : Sample) : pyval :=
  match s with
  | Frequency t hz =>
      PySeq [PyStr "frequency"; PySeq [PyNum t; PyNum hz]]
  | JointState t actual desired =>
      PySeq [PyStr "positions";
             PySeq [PyNum t; PySeq (map PyNum actual); PySeq (map PyNum desired)]]
  | JointRate t rates =>
      PySeq [PyStr "velocities"; PySeq [PyNum t; PySeq (map PyNum rates)]]
  end.

(** ** Runs: the producer puts items, the timer ticks *)

Inductive event : Type :=
| Put (item : pyval)
| Tick (current_time : Q).

Definition step (st : state) (ev : event) : state :=
  match ev with
  | Put item => with_queue (data_queue st ++ [item]) st
  | Tick current_time => snd (update current_time st)
  end.

Definition run (evs : list event) (st : state) : state := fold_left step evs st.

(** The three series, to state facts once for all of them. *)
Inductive series : Type := FrequencySeries | PositionSeries | VelocitySeries.

Definition times (k : series) (b : buffers) : list pyval :=
  match k with
  | FrequencySeries => time_data b
  | PositionSeries => position_time b
  | VelocitySeries => velocity_time b
  end.

Definition data (k : series) (b : buffers) : list (list pyval) :=
  match k with
  | FrequencySeries => [freq_data b]
  | PositionSeries => [positions b; desired_positions b]
  | VelocitySeries => [velocities b]
  end.

(** * Properties *)

Local Open Scope list_scope.

(** ** The pruning loop *)

Lemma pop_front_each_nonempty (das : list (list pyval)) (n : nat) :
  Forall (fun d => length d = S n) das ->
  pop_front_each das = (Ok tt, map (@tl pyval) das).
Proof.
  induction 1 as [| d das Hd _ IH]; simpl; [reflexivity |].
  destruct d as [| x d]; [discriminate |].
  rewrite IH. reflexivity.
Qed.

Lemma skipn_S_tl (n : nat) (d : list pyval) : skipn (S n) d = skipn n (tl d).
Proof. destruct d; simpl; [now rewrite skipn_nil | reflexivity]. Qed.

(** On arrays as long as the time array, [prune_data] drops the same
    number of leading entries from all of them: the ones it found too
    old; it stops at the first entry that is not, or raises at one that
    is not a number. *)
Lemma prune_data_spec (now : Q) (ta : list pyval) :
  forall das,
    Forall (fun d => length d = length ta) das ->
    exists n r,
      prune_data now ta das = (r, (skipn n ta, map (skipn n) das))
      /\ (n <= length ta)%nat
      /\ Forall (fun t => too_old now t = Ok true) (firstn n ta)
      /\ match skipn n ta with
         | [] => r = Ok tt
         | t :: _ => (r = Ok tt /\ too_old now t = Ok false)
                     \/ (exists e, r = Raise e /\ too_old now t = Raise e)
         end.
Proof.
  induction ta as [| t0 rest IH]; intros das Hlen.
  - exists 0%nat, (Ok tt). simpl. rewrite map_id. repeat split; auto.
  - simpl prune_data. destruct (too_old now t0) as [[|] | e] eqn:Hold.
    + rewrite (pop_front_each_nonempty das (length rest) Hlen).
      destruct (IH (map (@tl pyval) das)) as (n & r & Heq & Hn & Hdrop & Hstop).
      { rewrite Forall_map. revert Hlen. apply Forall_impl.
        intros d Hd. destruct d; simpl in *; [discriminate | congruence]. }
      exists (S n), r. rewrite Heq. simpl skipn. simpl firstn.
      rewrite map_map. repeat split.
      * f_equal. f_equal. apply map_ext. intros d. symmetry. apply skipn_S_tl.
      * simpl. lia.
      * constructor; assumption.
      * exact Hstop.
    + exists 0%nat, (Ok tt). simpl. rewrite map_id. repeat split; auto.
      simpl; lia.
    + exists 0%nat, (Raise e). simpl. rewrite map_id. repeat split; auto.
      * simpl; lia.
      * right. exists e. split; auto.
Qed.

(** The budgeted loop agrees with [prune_data] and counts its pops. *)
Lemma prune_data_loop_spec (now : Q) (ta : list pyval) :
  forall fuel das k,
    (length ta <= fuel)%nat ->
    exists n,
      prune_data_loop fuel now ta das k = Some (prune_data now ta das, (k + n)%nat)
      /\ (n <= length ta)%nat
      /\ (length (fst (snd (prune_data now ta das))) + n = length ta)%nat.
Proof.
  induction ta as [| t0 rest IH]; intros fuel das k Hfuel.
  - exists 0%nat. destruct fuel; simpl; rewrite Nat.add_0_r; auto.
  - destruct fuel as [| fuel]; [simpl in Hfuel; lia |].
    simpl. destruct (too_old now t0) as [[|] | e].
    + destruct (pop_front_each das) as [[[] | e] popped].
      * destruct (IH fuel popped (S k)) as (n & Heq & Hn & Hlen);
          [simpl in Hfuel; lia |].
        exists (S n). rewrite Heq. repeat split.
        -- do 2 f_equal. lia.
        -- lia.
        -- lia.
      * exists 1%nat. simpl. repeat split; try lia.
        do 2 f_equal. lia.
    + exists 0%nat. simpl. rewrite Nat.add_0_r. repeat split; lia.
    + exists 0%nat. simpl. rewrite Nat.add_0_r. repeat split; lia.
Qed.

(** C10. [prune_data] terminates on every time array, whatever the
    current time and the data arrays: given a budget of [len(time_array)]
    iterations the loop returns, it has executed at most
    [len(time_array)] iterations, each of which removed the front
    element of the time array, and its outcome is that of [prune_data]. *)
Theorem prune_data_terminates (fuel : nat) (now : Q) (time_array : list pyval)
    (data_arrays : list (list pyval)) :
  (length time_array <= fuel)%nat ->
  exists r time_array' data_arrays' iterations,
    prune_data_loop fuel now time_array data_arrays 0
      = Some (r, (time_array', data_arrays'), iterations)
    /\ (iterations <= length time_array)%nat
    /\ (length time_array' + iterations = length time_array)%nat
    /\ prune_data now time_array data_arrays = (r, (time_array', data_arrays')).
Proof.
  intros Hfuel.
  destruct (prune_data_loop_spec now time_array fuel data_arrays 0 Hfuel)
    as (n & Heq & Hn & Hlen).
  destruct (prune_data now time_array data_arrays) as [r [ta' das']] eqn:Hp.
  exists r, ta', das', n. simpl in *. auto.
Qed.

Lemma prune_data_terminates_witness :
  exists r time_array' data_arrays' iterations,
    prune_data_loop 3 (16 # 10) [PyNum 0; PyNum (1 # 2); PyNum 1]
                    [[PyNum 50; PyNum 52; PyNum 49]] 0
      = Some (r, (time_array', data_arrays'), iterations)
    /\ (iterations <= 3)%nat
    /\ (length time_array' + iterations = 3)%nat
    /\ prune_data (16 # 10) [PyNum 0; PyNum (1 # 2); PyNum 1]
                  [[PyNum 50; PyNum 52; PyNum 49]]
       = (r, (time_array', data_arrays')).
Proof.
  apply (prune_data_terminates 3 (16 # 10) [PyNum 0; PyNum (1 # 2); PyNum 1]
           [[PyNum 50; PyNum 52; PyNum 49]]).
  simpl. lia.
Defined.

(** ** One queue item *)

(** What the statements under [try] do with an item, read off the item
    alone: the series it is appended to, nothing, or the exception. *)
Inductive outcome : Type :=
| ToFrequency (t freq : pyval)
| ToPositions (t pos desired_pos : pyval)
| ToVelocities (t vel : pyval)
| Ignored
| Failed (e : exn).

Definition outcome_of (item : pyval) : outcome :=
  match unpack2 item with
  | Raise e => Failed e
  | Ok (data_type, payload) =>
      if py_eq_str data_type "frequency" then
        match unpack2 payload with
        | Ok (t, freq) => ToFrequency t freq
        | Raise e => Failed e
        end
      else if py_eq_str data_type "positions" then
        match unpack3 payload with
        | Ok (t, pos, desired_pos) => ToPositions t pos desired_pos
        | Raise e => Failed e
        end
      else if py_eq_str data_type "velocities" then
        match unpack2 payload with
        | Ok (t, vel) => ToVelocities t vel
        | Raise e => Failed e
        end
      else Ignored
  end.

Definition apply_outcome (o : outcome) (b : buffers) : buffers :=
  match o with
  | ToFrequency t freq => append_frequency t freq b
  | ToPositions t pos desired_pos => append_positions t pos desired_pos b
  | ToVelocities t vel => append_velocities t vel b
  | Ignored | Failed _ => b
  end.

Definition outcome_result (o : outcome) : result unit :=
  match o with
  | Failed e => Raise e
  | _ => Ok tt
  end.

Lemma with_bufs_same (st : state) : with_bufs (bufs st) st = st.
Proof. destruct st; reflexivity. Qed.

Lemma ingest_outcome (item : pyval) (st : state) :
  ingest item st
  = (outcome_result (outcome_of item),
     with_bufs (apply_outcome (outcome_of item) (bufs st)) st).
Proof.
  unfold ingest, outcome_of, bind, lift, modify, ret.
  destruct (unpack2 item) as [[data_type payload] | e]; simpl;
    [| now rewrite with_bufs_same].
  destruct (py_eq_str data_type "frequency").
  { destruct (unpack2 payload) as [[t freq] | e]; simpl;
      [reflexivity | now rewrite with_bufs_same]. }
  destruct (py_eq_str data_type "positions").
  { destruct (unpack3 payload) as [[[t pos] desired_pos] | e]; simpl;
      [reflexivity | now rewrite with_bufs_same]. }
  destruct (py_eq_str data_type "velocities").
  { destruct (unpack2 payload) as [[t vel] | e]; simpl;
      [reflexivity | now rewrite with_bufs_same]. }
  simpl. now rewrite with_bufs_same.
Qed.

Lemma py_eq_str_true (v : pyval) (literal : string) :
  py_eq_str v literal = true <-> v = PyStr literal.
Proof.
  destruct v; simpl; try (split; [discriminate | congruence]).
  rewrite String.eqb_eq. split; congruence.
Qed.

Lemma py_eq_str_false (v : pyval) (literal : string) :
  v <> PyStr literal -> py_eq_str v literal = false.
Proof.
  intros Hne. destruct (py_eq_str v literal) eqn:E; [| reflexivity].
  apply py_eq_str_true in E. contradiction.
Qed.

(** The draining loop, item by item. *)
Definition log_outcome (o : outcome) (out : list exn) : list exn :=
  match o with
  | Failed e => out ++ [e]
  | _ => out
  end.

Lemma drain_loop_cons (item : pyval) (rest : list pyval) (st : state) :
  drain_loop (item :: rest) st
  = drain_loop rest
      (mkState (apply_outcome (outcome_of item) (bufs st)) rest
               (ax_freq st) (ax_pos st) (ax_pos_deg st) (ax_vel st) (ax_vel_deg st)
               (subplot_right_pos st) (subplot_right_vel st)
               (log_outcome (outcome_of item) (stdout st))).
Proof.
  simpl. rewrite ingest_outcome.
  destruct (outcome_of item); reflexivity.
Qed.

Definition drained_bufs (pending : list pyval) (b : buffers) : buffers :=
  fold_left (fun b item => apply_outcome (outcome_of item) b) pending b.

Definition drained_stdout (pending : list pyval) (out : list exn) : list exn :=
  fold_left (fun out item => log_outcome (outcome_of item) out) pending out.

Lemma drain_loop_spec (pending : list pyval) :
  forall st,
    drain_loop pending st
    = mkState (drained_bufs pending (bufs st))
              (match pending with [] => data_queue st | _ :: _ => [] end)
              (ax_freq st) (ax_pos st) (ax_pos_deg st) (ax_vel st) (ax_vel_deg st)
              (subplot_right_pos st) (subplot_right_vel st)
              (drained_stdout pending (stdout st)).
Proof.
  induction pending as [| item rest IH]; intros st.
  - destruct st; reflexivity.
  - rewrite drain_loop_cons, IH. simpl. destruct rest; reflexivity.
Qed.

(** ** Parallel arrays *)

Definition parallel (b : buffers) : Prop :=
  length (time_data b) = length (freq_data b)
  /\ length (position_time b) = length (positions b)
  /\ length (positions b) = length (desired_positions b)
  /\ length (velocity_time b) = length (velocities b).

Lemma parallel_series (b : buffers) :
  parallel b <-> forall k, Forall (fun d => length d = length (times k b)) (data k b).
Proof.
  split.
  - intros (Hf & Hp & Hd & Hv) k. destruct k; simpl; repeat constructor; congruence.
  - intros H. pose proof (H FrequencySeries) as Hf.
    pose proof (H PositionSeries) as Hp. pose proof (H VelocitySeries) as Hv.
    simpl in *. inversion Hf; subst. inversion Hp as [| ? ? ? Hp']; subst.
    inversion Hp'; subst. inversion Hv; subst. unfold parallel.
    repeat split; congruence.
Qed.

Lemma apply_outcome_parallel (o : outcome) (b : buffers) :
  parallel b -> parallel (apply_outcome o b).
Proof.
  unfold parallel. intros (Hf & Hp & Hd & Hv).
  destruct o; simpl; rewrite ?length_app; simpl; repeat split; lia.
Qed.

Lemma drained_bufs_parallel (pending : list pyval) :
  forall b, parallel b -> parallel (drained_bufs pending b).
Proof.
  induction pending as [| item rest IH]; intros b Hb; simpl; [exact Hb |].
  apply IH, apply_outcome_parallel, Hb.
Qed.

(** Dropping the [n] oldest entries of one series, in all its arrays. *)
Definition drop_front (k : series) (n : nat) (b : buffers) : buffers :=
  match k with
  | FrequencySeries =>
      set_frequency (skipn n (time_data b)) (skipn n (freq_data b)) b
  | PositionSeries =>
      set_positions (skipn n (position_time b)) (skipn n (positions b))
                    (skipn n (desired_positions b)) b
  | VelocitySeries =>
      set_velocities (skipn n (velocity_time b)) (skipn n (velocities b)) b
  end.

Definition prune_series (k : series) (current_time : Q) : M unit :=
  match k with
  | FrequencySeries => prune_frequency current_time
  | PositionSeries => prune_positions current_time
  | VelocitySeries => prune_velocities current_time
  end.

Lemma drop_front_0 (k : series) (b : buffers) : drop_front k 0 b = b.
Proof. destruct k, b; reflexivity. Qed.

Lemma drop_front_parallel (k : series) (n : nat) (b : buffers) :
  parallel b -> parallel (drop_front k n b).
Proof.
  unfold parallel. intros (Hf & Hp & Hd & Hv).
  destruct k; simpl; rewrite ?length_skipn; repeat split; lia.
Qed.


(** How a pruning call stopped: at the end of the array or at an entry
    that is not too old, or by raising at an entry that is not a number. *)
Definition stopped (now : Q) (r : result unit) (kept : list pyval) : Prop :=
  match kept with
  | [] => r = Ok tt
  | t :: _ => (r = Ok tt /\ too_old now t = Ok false)
              \/ (exists e, r = Raise e /\ too_old now t = Raise e)
  end.

Lemma prune_series_spec (k : series) (now : Q) (st : state) :
  parallel (bufs st) ->
  exists n r,
    prune_series k now st = (r, with_bufs (drop_front k n (bufs st)) st)
    /\ (n <= length (times k (bufs st)))%nat
    /\ Forall (fun t => too_old now t = Ok true) (firstn n (times k (bufs st)))
    /\ stopped now r (skipn n (times k (bufs st))).
Proof.
  intros Hpar. rewrite parallel_series in Hpar. specialize (Hpar k).
  destruct (prune_data_spec now (times k (bufs st)) (data k (bufs st)) Hpar)
    as (n & r & Heq & Hn & Hdrop & Hstop).
  exists n, r. repeat split; try assumption.
  destruct k; simpl in *;
    unfold prune_frequency, prune_positions, prune_velocities;
    rewrite Heq; reflexivity.
Qed.

Lemma with_bufs_with_bufs (b1 b2 : buffers) (st : state) :
  with_bufs b2 (with_bufs b1 st) = with_bufs b2 st.
Proof. reflexivity. Qed.

Definition is_num (t : pyval) : Prop := exists q, t = PyNum q.

Lemma stopped_num (now : Q) (r : result unit) (kept : list pyval) :
  Forall is_num kept -> stopped now r kept -> stopped now (Ok tt) kept /\ r = Ok tt.
Proof.
  destruct kept as [| t kept]; simpl; intros Hnum Hstop; [auto |].
  inversion Hnum as [| ? ? [q ->] _]; subst.
  destruct Hstop as [[-> Hold] | (e & _ & Hold)]; [auto | discriminate].
Qed.

Lemma Forall_skipn {A : Type} (P : A -> Prop) (n : nat) (l : list A) :
  Forall P l -> Forall P (skipn n l).
Proof.
  revert l. induction n as [| n IH]; intros l Hl; [exact Hl |].
  destruct l; [constructor |]. inversion Hl; subst. now apply IH.
Qed.

(** The three pruning calls in sequence.  Each drops a prefix of its own
    series; a call that raises leaves the later series untouched. *)
Lemma prune_all_spec (now : Q) (st : state) :
  parallel (bufs st) ->
  exists nf np nv r,
    prune_all now st
    = (r, with_bufs (drop_front VelocitySeries nv
                       (drop_front PositionSeries np
                          (drop_front FrequencySeries nf (bufs st)))) st)
    /\ (r = Ok tt ->
        stopped now (Ok tt) (skipn nf (time_data (bufs st)))
        /\ stopped now (Ok tt) (skipn np (position_time (bufs st)))
        /\ stopped now (Ok tt) (skipn nv (velocity_time (bufs st))))
    /\ ((forall k, Forall is_num (times k (bufs st))) -> r = Ok tt).
Proof.
  intros Hpar. unfold prune_all, bind.
  destruct (prune_series_spec FrequencySeries now st Hpar)
    as (nf & rf & Hf & _ & _ & Hsf).
  simpl prune_series in Hf. rewrite Hf.
  destruct rf as [[] | e].
  - set (st1 := with_bufs (drop_front FrequencySeries nf (bufs st)) st).
    assert (Hpar1 : parallel (bufs st1))
      by (apply drop_front_parallel; exact Hpar).
    destruct (prune_series_spec PositionSeries now st1 Hpar1)
      as (np & rp & Hp & _ & _ & Hsp).
    simpl prune_series in Hp. rewrite Hp.
    destruct rp as [[] | e].
    + set (st2 := with_bufs (drop_front PositionSeries np (bufs st1)) st1).
      assert (Hpar2 : parallel (bufs st2))
        by (apply drop_front_parallel; exact Hpar1).
      destruct (prune_series_spec VelocitySeries now st2 Hpar2)
        as (nv & rv & Hv & _ & _ & Hsv).
      simpl prune_series in Hv. rewrite Hv.
      exists nf, np, nv, rv. split; [reflexivity |]. split.
      * intros ->. auto.
      * intros Hnum.
        apply (stopped_num now rv _ (Forall_skipn _ _ _ (Hnum VelocitySeries)) Hsv).
    + exists nf, np, 0%nat, (Raise e). rewrite drop_front_0.
      split; [reflexivity |]. split; [discriminate |].
      intros Hnum.
      apply (stopped_num now (Raise e) _
               (Forall_skipn _ _ _ (Hnum PositionSeries)) Hsp).
  - exists nf, 0%nat, 0%nat, (Raise e). rewrite !drop_front_0.
    split; [reflexivity |]. split; [discriminate |].
    intros Hnum.
    apply (stopped_num now (Raise e) _
             (Forall_skipn _ _ _ (Hnum FrequencySeries)) Hsf).
Qed.

(** ** The redraw step touches only its own axes *)

Definition is_fin (l : limit) : Prop := exists q, l = Fin q.

Lemma limit_min_fin (acc : limit) (m : Q) : acc <> NegInf -> is_fin (limit_min acc m).
Proof.
  destruct acc as [| a |]; simpl; intros H; [congruence | | now exists m].
  destruct (Qlt_bool m a); [now exists m | now exists a].
Qed.

Lemma limit_max_fin (acc : limit) (m : Q) : acc <> PosInf -> is_fin (limit_max acc m).
Proof.
  destruct acc as [| a |]; simpl; intros H; [now exists m | | congruence].
  destruct (Qlt_bool a m); [now exists m | now exists a].
Qed.

Lemma is_fin_not_neginf (l : limit) : is_fin l -> l <> NegInf.
Proof. intros [q ->]. discriminate. Qed.

Lemma is_fin_not_posinf (l : limit) : is_fin l -> l <> PosInf.
Proof. intros [q ->]. discriminate. Qed.

Lemma with_ax_pos_same (st : state) : with_ax_pos (ax_pos st) st = st.
Proof. destruct st; reflexivity. Qed.

Lemma with_ax_vel_same (st : state) : with_ax_vel (ax_vel st) st = st.
Proof. destruct st; reflexivity. Qed.

(** The per-joint loop of the position chart only adds lines to [ax_pos]. *)
Lemma plot_positions_spec (joints : list nat) :
  forall lo hi st,
    let '(r, st') := plot_positions joints lo hi st in
    st' = with_ax_pos (ax_pos st') st
    /\ xlim (ax_pos st') = xlim (ax_pos st)
    /\ ylim (ax_pos st') = ylim (ax_pos st)
    /\ (forall lo' hi', r = Ok (lo', hi') ->
        (lo <> NegInf -> hi <> PosInf ->
         joints <> [] \/ (is_fin lo /\ is_fin hi) ->
         is_fin lo' /\ is_fin hi')
        /\ exists lines,
             artists (ax_pos st') = artists (ax_pos st) ++ lines
             /\ length lines = (2 * length joints)%nat).
Proof.
  induction joints as [| i rest IH]; intros lo hi st.
  - simpl. rewrite with_ax_pos_same. split; [| split; [| split]]; auto.
    intros lo' hi' Hr. injection Hr as <- <-. split.
    + intros _ _ [Hne | Hfin]; [congruence | exact Hfin].
    + exists []. now rewrite app_nil_r.
  - simpl.
    destruct (column i (positions (bufs st))) as [acts | e];
      [| simpl; rewrite with_ax_pos_same; repeat split; auto; discriminate].
    destruct (column i (desired_positions (bufs st))) as [dess | e];
      [| simpl; rewrite with_ax_pos_same; repeat split; auto; discriminate].
    destruct (py_min (acts ++ dess)) as [m | e];
      [| simpl; rewrite with_ax_pos_same; repeat split; auto; discriminate].
    destruct (py_max (acts ++ dess)) as [x | e];
      [| simpl; rewrite with_ax_pos_same; repeat split; auto; discriminate].
    match goal with
    | |- context [plot_positions rest ?l ?h ?s] =>
        specialize (IH l h s); destruct (plot_positions rest l h s) as [r st']
    end.
    destruct IH as (Hframe & Hx & Hy & Hok).
    split; [| split; [| split]].
    + rewrite Hframe at 1. reflexivity.
    + rewrite Hx. reflexivity.
    + rewrite Hy. reflexivity.
    + intros lo' hi' Hr. destruct (Hok lo' hi' Hr) as (Hfin & lines & Hart & Hlen).
      split.
      * intros Hlo Hhi _.
        pose proof (limit_min_fin lo m Hlo) as Hm.
        pose proof (limit_max_fin hi x Hhi) as Hx'.
        apply Hfin; [now apply is_fin_not_neginf | now apply is_fin_not_posinf |].
        right. split; assumption.
      * eexists. split.
        -- rewrite Hart. simpl. rewrite <- !app_assoc. reflexivity.
        -- rewrite !length_app, Hlen. simpl. lia.
Qed.

(** The per-joint loop of the velocity chart only adds lines to [ax_vel]. *)
Lemma plot_velocities_spec (joints : list nat) :
  forall lo hi st,
    let '(r, st') := plot_velocities joints lo hi st in
    st' = with_ax_vel (ax_vel st') st
    /\ xlim (ax_vel st') = xlim (ax_vel st)
    /\ ylim (ax_vel st') = ylim (ax_vel st)
    /\ (forall lo' hi', r = Ok (lo', hi') ->
        (lo <> NegInf -> hi <> PosInf ->
         joints <> [] \/ (is_fin lo /\ is_fin hi) ->
         is_fin lo' /\ is_fin hi')
        /\ exists lines,
             artists (ax_vel st') = artists (ax_vel st) ++ lines
             /\ length lines = length joints).
Proof.
  induction joints as [| i rest IH]; intros lo hi st.
  - simpl. rewrite with_ax_vel_same. split; [| split; [| split]]; auto.
    intros lo' hi' Hr. injection Hr as <- <-. split.
    + intros _ _ [Hne | Hfin]; [congruence | exact Hfin].
    + exists []. now rewrite app_nil_r.
  - simpl.
    destruct (column i (velocities (bufs st))) as [vels | e];
      [| simpl; rewrite with_ax_vel_same; repeat split; auto; discriminate].
    destruct (py_min vels) as [m | e];
      [| simpl; rewrite with_ax_vel_same; repeat split; auto; discriminate].
    destruct (py_max vels) as [x | e];
      [| simpl; rewrite with_ax_vel_same; repeat split; auto; discriminate].
    match goal with
    | |- context [plot_velocities rest ?l ?h ?s] =>
        specialize (IH l h s); destruct (plot_velocities rest l h s) as [r st']
    end.
    destruct IH as (Hframe & Hx & Hy & Hok).
    split; [| split; [| split]].
    + rewrite Hframe at 1. reflexivity.
    + rewrite Hx. reflexivity.
    + rewrite Hy. reflexivity.
    + intros lo' hi' Hr. destruct (Hok lo' hi' Hr) as (Hfin & lines & Hart & Hlen).
      split.
      * intros Hlo Hhi _.
        pose proof (limit_min_fin lo m Hlo) as Hm.
        pose proof (limit_max_fin hi x Hhi) as Hx'.
        apply Hfin; [now apply is_fin_not_neginf | now apply is_fin_not_posinf |].
        right. split; assumption.
      * eexists. split.
        -- rewrite Hart. simpl. rewrite <- !app_assoc. reflexivity.
        -- rewrite !length_app, Hlen. simpl. lia.
Qed.

(** A radian axis and its twin degree axis agree: neither has limits
    yet, or both have, finite ones, the degree limits being [rad2deg] of
    the radian limits. *)
Definition synced (rad deg : axes) : Prop :=
  match ylim rad, ylim deg with
  | None, None => True
  | Some (lo, hi), Some (dlo, dhi) =>
      is_fin lo /\ is_fin hi /\ dlo = rad2deg lo /\ dhi = rad2deg hi
  | _, _ => False
  end.

(** The chart was drawn at [now]: its x-window is the one of this tick
    and it shows [n] lines. *)
Definition drawn_at (now : Q) (n : nat) (a : axes) : Prop :=
  xlim a = Some (now - max_time_window, now) /\ length (artists a) = n.

Lemma redraw_frequency_spec (now : Q) (st : state) :
  let '(r, st') := redraw_frequency now st in
  r = Ok tt
  /\ st' = with_ax_freq (ax_freq st') st
  /\ (truthy (time_data (bufs st)) && truthy (freq_data (bufs st)) = false ->
      st' = st)
  /\ (truthy (time_data (bufs st)) && truthy (freq_data (bufs st)) = true ->
      artists (ax_freq st')
      = [HLine 50 "50 Hz Reference";
         Line (time_data (bufs st)) (freq_data (bufs st)) false "Actual Frequency" None]
      /\ xlim (ax_freq st') = Some (now - max_time_window, now)
      /\ ylim (ax_freq st') = Some (Fin 0, Fin 60)).
Proof.
  unfold redraw_frequency.
  destruct (truthy (time_data (bufs st)) && truthy (freq_data (bufs st))).
  - repeat split; auto; discriminate.
  - repeat split; auto; try discriminate. destruct st; reflexivity.
Qed.

Lemma redraw_positions_spec (now : Q) (st : state) :
  let guard := truthy (position_time (bufs st)) && truthy (positions (bufs st))
               && truthy (desired_positions (bufs st)) in
  let '(r, st') := redraw_positions now st in
  st' = with_ax_pos_deg (ax_pos_deg st') (with_ax_pos (ax_pos st') st)
  /\ (guard = false -> r = Ok tt /\ st' = st)
  /\ (guard = true ->
      match r with
      | Raise _ => ylim (ax_pos st') = None /\ ylim (ax_pos_deg st') = None
      | Ok _ =>
          drawn_at now (2 * num_joints) (ax_pos st')
          /\ exists lo hi,
               ylim (ax_pos st') = Some (Fin lo, Fin hi)
               /\ ylim (ax_pos_deg st') = Some (rad2deg (Fin lo), rad2deg (Fin hi))
      end).
Proof.
  unfold redraw_positions.
  destruct (truthy (position_time (bufs st)) && truthy (positions (bufs st))
            && truthy (desired_positions (bufs st))); cbv beta iota zeta.
  2: { split; [destruct st; reflexivity |]. split; [auto | discriminate]. }
  unfold bind, modify.
  match goal with
  | |- context [plot_positions ?j ?l ?h ?s] =>
      pose proof (plot_positions_spec j l h s) as Hspec;
      destruct (plot_positions j l h s) as [[[lo hi] | e] st1]
  end; destruct Hspec as (Hframe & Hx & Hy & Hok).
  - destruct (Hok lo hi eq_refl) as (Hfin & lines & Hart & Hlen).
    destruct Hfin as [[qlo ->] [qhi ->]];
      [discriminate | discriminate | left; discriminate |].
    split; [rewrite Hframe; reflexivity |].
    split; [discriminate |]. intros _. split.
    + split; [reflexivity |]. simpl. rewrite Hart. simpl.
      rewrite Hlen, length_seq. reflexivity.
    + exists qlo, qhi. split; reflexivity.
  - split; [rewrite Hframe; reflexivity |].
    split; [discriminate |]. intros _.
    split; [rewrite Hy; reflexivity |].
    rewrite Hframe. reflexivity.
Qed.

Lemma redraw_velocities_spec (now : Q) (st : state) :
  let guard := truthy (velocity_time (bufs st)) && truthy (velocities (bufs st)) in
  let '(r, st') := redraw_velocities now st in
  st' = with_ax_vel_deg (ax_vel_deg st') (with_ax_vel (ax_vel st') st)
  /\ (guard = false -> r = Ok tt /\ st' = st)
  /\ (guard = true ->
      match r with
      | Raise _ => ylim (ax_vel st') = None /\ ylim (ax_vel_deg st') = None
      | Ok _ =>
          drawn_at now num_joints (ax_vel st')
          /\ exists lo hi,
               ylim (ax_vel st') = Some (Fin lo, Fin hi)
               /\ ylim (ax_vel_deg st') = Some (rad2deg (Fin lo), rad2deg (Fin hi))
      end).
Proof.
  unfold redraw_velocities.
  destruct (truthy (velocity_time (bufs st)) && truthy (velocities (bufs st)));
    cbv beta iota zeta.
  2: { split; [destruct st; reflexivity |]. split; [auto | discriminate]. }
  unfold bind, modify.
  match goal with
  | |- context [plot_velocities ?j ?l ?h ?s] =>
      pose proof (plot_velocities_spec j l h s) as Hspec;
      destruct (plot_velocities j l h s) as [[[lo hi] | e] st1]
  end; destruct Hspec as (Hframe & Hx & Hy & Hok).
  - destruct (Hok lo hi eq_refl) as (Hfin & lines & Hart & Hlen).
    destruct Hfin as [[qlo ->] [qhi ->]];
      [discriminate | discriminate | left; discriminate |].
    split; [rewrite Hframe; reflexivity |].
    split; [discriminate |]. intros _. split.
    + split; [reflexivity |]. simpl. rewrite Hart. simpl.
      rewrite Hlen, length_seq. reflexivity.
    + exists qlo, qhi. split; reflexivity.
  - split; [rewrite Hframe; reflexivity |].
    split; [discriminate |]. intros _.
    split; [rewrite Hy; reflexivity |].
    rewrite Hframe. reflexivity.
Qed.

(** The guard of each chart's redraw. *)
Definition shown (k : series) (b : buffers) : bool :=
  match k with
  | FrequencySeries => truthy (time_data b) && truthy (freq_data b)
  | PositionSeries =>
      truthy (position_time b) && truthy (positions b) && truthy (desired_positions b)
  | VelocitySeries => truthy (velocity_time b) && truthy (velocities b)
  end.



Lemma frame_freq (st st' : state) :
  st' = with_ax_freq (ax_freq st') st ->
  bufs st' = bufs st /\ data_queue st' = data_queue st /\ stdout st' = stdout st
  /\ ax_pos st' = ax_pos st /\ ax_pos_deg st' = ax_pos_deg st
  /\ ax_vel st' = ax_vel st /\ ax_vel_deg st' = ax_vel_deg st.
Proof. intros ->. repeat split. Qed.

Lemma frame_pos (st st' : state) :
  st' = with_ax_pos_deg (ax_pos_deg st') (with_ax_pos (ax_pos st') st) ->
  bufs st' = bufs st /\ data_queue st' = data_queue st /\ stdout st' = stdout st
  /\ ax_freq st' = ax_freq st
  /\ ax_vel st' = ax_vel st /\ ax_vel_deg st' = ax_vel_deg st.
Proof. intros ->. repeat split. Qed.

Lemma frame_vel (st st' : state) :
  st' = with_ax_vel_deg (ax_vel_deg st') (with_ax_vel (ax_vel st') st) ->
  bufs st' = bufs st /\ data_queue st' = data_queue st /\ stdout st' = stdout st
  /\ ax_freq st' = ax_freq st
  /\ ax_pos st' = ax_pos st /\ ax_pos_deg st' = ax_pos_deg st.
Proof. intros ->. repeat split. Qed.

Lemma synced_drawn (rad deg : axes) (lo hi : Q) :
  ylim rad = Some (Fin lo, Fin hi) ->
  ylim deg = Some (rad2deg (Fin lo), rad2deg (Fin hi)) ->
  synced rad deg.
Proof.
  unfold synced. intros -> ->. repeat split; [now exists lo | now exists hi].
Qed.

Lemma synced_cleared (rad deg : axes) :
  ylim rad = None -> ylim deg = None -> synced rad deg.
Proof. unfold synced. intros -> ->. exact I. Qed.

(** What each chart's axes are after the redraw of one chart. *)
Definition chart_after (k : series) (now : Q) (st st' : state) : Prop :=
  match k with
  | FrequencySeries =>
      artists (ax_freq st')
      = [HLine 50 "50 Hz Reference";
         Line (time_data (bufs st)) (freq_data (bufs st)) false "Actual Frequency" None]
      /\ xlim (ax_freq st') = Some (now - max_time_window, now)
      /\ ylim (ax_freq st') = Some (Fin 0, Fin 60)
  | PositionSeries => drawn_at now (2 * num_joints) (ax_pos st')
  | VelocitySeries => drawn_at now num_joints (ax_vel st')
  end.

Definition chart_kept (k : series) (st st' : state) : Prop :=
  match k with
  | FrequencySeries => ax_freq st' = ax_freq st
  | PositionSeries => ax_pos st' = ax_pos st /\ ax_pos_deg st' = ax_pos_deg st
  | VelocitySeries => ax_vel st' = ax_vel st /\ ax_vel_deg st' = ax_vel_deg st
  end.

Definition both_synced (st : state) : Prop :=
  synced (ax_pos st) (ax_pos_deg st) /\ synced (ax_vel st) (ax_vel_deg st).

Lemma redraw_all_spec (now : Q) (st : state) :
  forall r st',
    redraw_all now st = (r, st') ->
    (bufs st' = bufs st /\ data_queue st' = data_queue st /\ stdout st' = stdout st)
    /\ (forall k, shown k (bufs st) = false -> chart_kept k st st')
    /\ (both_synced st -> both_synced st')
    /\ (r = Ok tt -> forall k, shown k (bufs st) = true -> chart_after k now st st').
Proof.
  intros r st'. unfold redraw_all, bind, modify.
  pose proof (redraw_frequency_spec now st) as Hf.
  destruct (redraw_frequency now st) as [rf st1].
  destruct Hf as (-> & Hf1 & Hfskip & Hfdraw).
  destruct (frame_freq _ _ Hf1) as (Hb1 & Hq1 & Ho1 & Hp1 & Hpd1 & Hv1 & Hvd1).
  pose proof (redraw_positions_spec now st1) as Hp. cbv zeta in Hp.
  destruct (redraw_positions now st1) as [rp st2].
  destruct Hp as (Hp2 & Hpskip & Hpdraw).
  destruct (frame_pos _ _ Hp2) as (Hb2 & Hq2 & Ho2 & Hf2 & Hv2 & Hvd2).
  rewrite Hb1 in Hpskip, Hpdraw.
  assert (Hsync_pos : synced (ax_pos st) (ax_pos_deg st) ->
                      synced (ax_pos st2) (ax_pos_deg st2)).
  { intros Hs.
    destruct (shown PositionSeries (bufs st)) eqn:Hg; simpl in Hg.
    - specialize (Hpdraw Hg). destruct rp as [[] | e].
      + destruct Hpdraw as (_ & lo & hi & Hy & Hyd). eapply synced_drawn; eauto.
      + destruct Hpdraw as (Hy & Hyd). now apply synced_cleared.
    - destruct (Hpskip Hg) as (_ & ->). now rewrite Hp1, Hpd1. }
  destruct rp as [[] | e].
  - pose proof (redraw_velocities_spec now st2) as Hv. cbv zeta in Hv.
    destruct (redraw_velocities now st2) as [rv st3].
    destruct Hv as (Hv3 & Hvskip & Hvdraw).
    destruct (frame_vel _ _ Hv3) as (Hb3 & Hq3 & Ho3 & Hf3 & Hp3 & Hpd3).
    rewrite Hb2, Hb1 in Hvskip, Hvdraw.
    assert (Hsync_vel : synced (ax_vel st) (ax_vel_deg st) ->
                        synced (ax_vel st3) (ax_vel_deg st3)).
    { intros Hs.
      destruct (shown VelocitySeries (bufs st)) eqn:Hg; simpl in Hg.
      - specialize (Hvdraw Hg). destruct rv as [[] | e].
        + destruct Hvdraw as (_ & lo & hi & Hy & Hyd). eapply synced_drawn; eauto.
        + destruct Hvdraw as (Hy & Hyd). now apply synced_cleared.
      - destruct (Hvskip Hg) as (_ & ->). now rewrite Hv2, Hvd2, Hv1, Hvd1. }
    assert (Hkept : forall k, shown k (bufs st) = false -> chart_kept k st st3).
    { intros k Hg. destruct k; simpl in *.
      - rewrite Hf3, Hf2. now rewrite (Hfskip Hg).
      - destruct (Hpskip Hg) as (_ & E). rewrite Hp3, Hpd3, E. auto.
      - destruct (Hvskip Hg) as (_ & E). rewrite E, Hv2, Hvd2. auto. }
    destruct rv as [[] | e]; intros E; injection E as <- <-.
    + split; [simpl; repeat split; congruence |].
      split; [intros k Hg; specialize (Hkept k Hg); destruct k; exact Hkept |].
      split.
      { intros [Hsp Hsv]. split; simpl.
        - rewrite Hp3, Hpd3. now apply Hsync_pos.
        - now apply Hsync_vel. }
      intros _ k Hg. destruct k; simpl in *.
      * rewrite Hf3, Hf2. now apply Hfdraw.
      * rewrite Hp3. now apply Hpdraw.
      * now apply Hvdraw.
    + split; [repeat split; congruence |].
      split; [exact Hkept |].
      split; [| discriminate].
      intros [Hsp Hsv]. split.
      * rewrite Hp3, Hpd3. now apply Hsync_pos.
      * now apply Hsync_vel.
  - intros E; injection E as <- <-.
    split; [repeat split; congruence |].
    split.
    { intros k Hg. destruct k; simpl in *.
      - rewrite Hf2. now rewrite (Hfskip Hg).
      - destruct (Hpskip Hg) as (_ & E). rewrite E. auto.
      - rewrite Hv2, Hvd2. auto. }
    split; [| discriminate].
    intros [Hsp Hsv]. split.
    + now apply Hsync_pos.
    + now rewrite Hv2, Hvd2, Hv1, Hvd1.
Qed.

(** ** Ingest: atomicity, unknown kinds, failures *)

(** Series [k] of [b'] is series [k] of [b] with one entry appended to
    the time array and to every data array; the other series are those
    of [b]. *)
Definition appended_one (k : series) (b b' : buffers) : Prop :=
  (exists t, times k b' = times k b ++ [t])
  /\ Forall2 (fun d d' => exists v, d' = d ++ [v]) (data k b) (data k b')
  /\ forall k', k' <> k -> times k' b' = times k' b /\ data k' b' = data k' b.

(** The series a kind tag selects. *)
Definition target (data_type : pyval) : option series :=
  if py_eq_str data_type "frequency" then Some FrequencySeries
  else if py_eq_str data_type "positions" then Some PositionSeries
  else if py_eq_str data_type "velocities" then Some VelocitySeries
  else None.

Lemma appended_one_frequency (t freq : pyval) (b : buffers) :
  appended_one FrequencySeries b (append_frequency t freq b).
Proof.
  split; [now exists t |]. split.
  - simpl. repeat constructor. now exists freq.
  - intros k' Hk. destruct k'; simpl; auto. congruence.
Qed.

Lemma appended_one_positions (t pos desired_pos : pyval) (b : buffers) :
  appended_one PositionSeries b (append_positions t pos desired_pos b).
Proof.
  split; [now exists t |]. split.
  - simpl. repeat constructor; [now exists pos | now exists desired_pos].
  - intros k' Hk. destruct k'; simpl; auto. congruence.
Qed.

Lemma appended_one_velocities (t vel : pyval) (b : buffers) :
  appended_one VelocitySeries b (append_velocities t vel b).
Proof.
  split; [now exists t |]. split.
  - simpl. repeat constructor. now exists vel.
  - intros k' Hk. destruct k'; simpl; auto. congruence.
Qed.

(** C9. Ingestion of a recognized message is atomic: for an item whose
    kind tag selects series [k], either the payload fails to unpack, the
    exception is raised and the state (every buffer) is left as it was,
    or every array of series [k] receives exactly one append, the other
    series being unchanged. *)
Theorem ingest_atomic (item data_type payload : pyval) (k : series) (st : state) :
  unpack2 item = Ok (data_type, payload) ->
  target data_type = Some k ->
  (exists e, ingest item st = (Raise e, st))
  \/ (exists b', ingest item st = (Ok tt, with_bufs b' st)
                 /\ appended_one k (bufs st) b').
Proof.
  intros Hitem Hk. rewrite ingest_outcome. unfold outcome_of, target in *.
  rewrite Hitem.
  destruct (py_eq_str data_type "frequency").
  { injection Hk as <-.
    destruct (unpack2 payload) as [[t freq] | e]; simpl.
    - right. eexists. split; [reflexivity | apply appended_one_frequency].
    - left. exists e. now rewrite with_bufs_same. }
  destruct (py_eq_str data_type "positions").
  { injection Hk as <-.
    destruct (unpack3 payload) as [[[t pos] desired_pos] | e]; simpl.
    - right. eexists. split; [reflexivity | apply appended_one_positions].
    - left. exists e. now rewrite with_bufs_same. }
  destruct (py_eq_str data_type "velocities"); [| discriminate].
  injection Hk as <-.
  destruct (unpack2 payload) as [[t vel] | e]; simpl.
  - right. eexists. split; [reflexivity | apply appended_one_velocities].
  - left. exists e. now rewrite with_bufs_same.
Qed.

Lemma ingest_atomic_witness :
  (exists e, ingest (PySeq [PyStr "positions"; PySeq [PyNum 0; PySeq []]]) initial_state
             = (Raise e, initial_state))
  \/ (exists b', ingest (PySeq [PyStr "positions"; PySeq [PyNum 0; PySeq []]])
                        initial_state
                 = (Ok tt, with_bufs b' initial_state)
                 /\ appended_one PositionSeries (bufs initial_state) b').
Proof.
  apply (ingest_atomic (PySeq [PyStr "positions"; PySeq [PyNum 0; PySeq []]])
           (PyStr "positions") (PySeq [PyNum 0; PySeq []]) PositionSeries
           initial_state); reflexivity.
Defined.

(** C5. A message whose kind tag is none of "frequency", "positions",
    "velocities" is ignored silently: the statements under [try] return
    normally and leave the whole state (the three rolling buffers, and
    the output too) as it was, and the draining loop goes on with the
    next item. *)
Theorem unknown_kind_ignored (item kind payload : pyval) (st : state) :
  unpack2 item = Ok (kind, payload) ->
  kind <> PyStr "frequency" ->
  kind <> PyStr "positions" ->
  kind <> PyStr "velocities" ->
  ingest item st = (Ok tt, st)
  /\ forall rest, drain_loop (item :: rest) st = drain_loop rest (with_queue rest st).
Proof.
  intros Hitem Hf Hp Hv.
  assert (Hout : outcome_of item = Ignored).
  { unfold outcome_of. rewrite Hitem.
    now rewrite (py_eq_str_false _ _ Hf), (py_eq_str_false _ _ Hp),
      (py_eq_str_false _ _ Hv). }
  split.
  - rewrite ingest_outcome, Hout. simpl. now rewrite with_bufs_same.
  - intros rest. rewrite drain_loop_cons, Hout. reflexivity.
Qed.

Lemma unknown_kind_ignored_witness :
  ingest (PySeq [PyStr "torque"; PySeq [PyNum 0; PyNum 1]]) initial_state
  = (Ok tt, initial_state)
  /\ forall rest,
       drain_loop (PySeq [PyStr "torque"; PySeq [PyNum 0; PyNum 1]] :: rest) initial_state
       = drain_loop rest (with_queue rest initial_state).
Proof.
  apply (unknown_kind_ignored (PySeq [PyStr "torque"; PySeq [PyNum 0; PyNum 1]])
           (PyStr "torque") (PySeq [PyNum 0; PyNum 1]) initial_state);
    [reflexivity | discriminate | discriminate | discriminate].
Defined.



(** The exceptions the draining loop prints for the items of a queue. *)
Definition printed (pending : list pyval) : list exn :=
  flat_map (fun item => match outcome_of item with Failed e => [e] | _ => [] end)
           pending.

Lemma drained_stdout_printed (pending : list pyval) :
  forall out, drained_stdout pending out = out ++ printed pending.
Proof.
  induction pending as [| item rest IH]; intros out; simpl.
  - now rewrite app_nil_r.
  - unfold drained_stdout in IH. rewrite IH.
    destruct (outcome_of item); simpl; try reflexivity.
    now rewrite <- app_assoc.
Qed.

Lemma update_unfold (now : Q) (st : state) :
  update now st
  = match prune_all now st with
    | (Ok _, st1) => redraw_all now (drain_loop (data_queue st1) st1)
    | (Raise e, st1) => (Raise e, st1)
    end.
Proof.
  unfold update, bind, drain.
  destruct (prune_all now st) as [[[] | e] st1]; reflexivity.
Qed.



(** ** The parallel arrays stay parallel *)

Lemma update_bufs_queue (now : Q) (st : state) :
  parallel (bufs st) ->
  exists nf np nv r,
    let pruned := drop_front VelocitySeries nv
                    (drop_front PositionSeries np
                       (drop_front FrequencySeries nf (bufs st))) in
    prune_all now st = (r, with_bufs pruned st)
    /\ (r = Ok tt ->
        stopped now (Ok tt) (skipn nf (time_data (bufs st)))
        /\ stopped now (Ok tt) (skipn np (position_time (bufs st)))
        /\ stopped now (Ok tt) (skipn nv (velocity_time (bufs st))))
    /\ ((forall k, Forall is_num (times k (bufs st))) -> r = Ok tt)
    /\ match r with
       | Ok _ =>
           bufs (snd (update now st)) = drained_bufs (data_queue st) pruned
           /\ data_queue (snd (update now st)) = []
           /\ stdout (snd (update now st)) = stdout st ++ printed (data_queue st)
       | Raise e =>
           update now st = (Raise e, with_bufs pruned st)
       end.
Proof.
  intros Hpar.
  destruct (prune_all_spec now st Hpar) as (nf & np & nv & r & Hprune & Hstop & Hnum).
  exists nf, np, nv, r. cbv zeta. split; [exact Hprune |].
  split; [exact Hstop |]. split; [exact Hnum |].
  rewrite update_unfold, Hprune. destruct r as [[] | e]; [| reflexivity].
  match goal with
  | |- context [redraw_all now ?s] =>
      pose proof (redraw_all_spec now s) as Hre;
      destruct (redraw_all now s) as [r' st']
  end.
  destruct (Hre r' st' eq_refl) as ((Hb & Hq & Ho) & _).
  simpl snd. rewrite Hb, Hq, Ho, drain_loop_spec. simpl.
  rewrite drained_stdout_printed. repeat split.
  destruct (data_queue st); reflexivity.
Qed.

Lemma update_parallel (now : Q) (st : state) :
  parallel (bufs st) -> parallel (bufs (snd (update now st))).
Proof.
  intros Hpar.
  destruct (update_bufs_queue now st Hpar) as (nf & np & nv & r & _ & _ & _ & Hup).
  cbv zeta in Hup.
  assert (Hpruned : parallel (drop_front VelocitySeries nv
                      (drop_front PositionSeries np
                         (drop_front FrequencySeries nf (bufs st)))))
    by (repeat apply drop_front_parallel; exact Hpar).
  destruct r as [[] | e].
  - destruct Hup as (-> & _). now apply drained_bufs_parallel.
  - rewrite Hup. exact Hpruned.
Qed.

Lemma run_app (evs1 evs2 : list event) (st : state) :
  run (evs1 ++ evs2) st = run evs2 (run evs1 st).
Proof. apply fold_left_app. Qed.

Lemma run_parallel (evs : list event) :
  forall st, parallel (bufs st) -> parallel (bufs (run evs st)).
Proof.
  induction evs as [| ev evs IH]; intros st Hpar; [exact Hpar |].
  simpl. apply IH. destruct ev as [item | now]; simpl.
  - exact Hpar.
  - now apply update_parallel.
Qed.

(** C8. After every tick, whatever the queue held, the parallel arrays
    of each series have equal lengths; the prune step (which pops one
    element from the time array and from each data array together) and
    the ingest of one item (which appends to all arrays of a series
    together) each preserve this, as does a whole tick, so it holds in
    every state reached from the initial one. *)
Theorem parallel_arrays_invariant :
  (forall evs, parallel (bufs (run evs initial_state)))
  /\ (forall now st, parallel (bufs st) -> parallel (bufs (snd (update now st))))
  /\ (forall now st, parallel (bufs st) -> parallel (bufs (snd (prune_all now st))))
  /\ (forall item st, parallel (bufs st) -> parallel (bufs (snd (ingest item st))))
  /\ (forall st, parallel (bufs st) -> parallel (bufs (snd (drain st)))).
Proof.
  split; [| split; [| split; [| split]]].
  - intros evs. apply run_parallel. repeat split.
  - apply update_parallel.
  - intros now st Hpar.
    destruct (prune_all_spec now st Hpar) as (nf & np & nv & r & -> & _).
    unfold with_bufs. cbn [snd bufs]. repeat apply drop_front_parallel. exact Hpar.
  - intros item st Hpar. rewrite ingest_outcome. simpl.
    now apply apply_outcome_parallel.
  - intros st Hpar. simpl. rewrite drain_loop_spec. simpl.
    now apply drained_bufs_parallel.
Qed.

(** ** Degree axes *)

Lemma prune_all_frame (now : Q) (st : state) :
  exists b', snd (prune_all now st) = with_bufs b' st.
Proof.
  unfold prune_all, bind, prune_frequency, prune_positions, prune_velocities.
  destruct (prune_data now (time_data (bufs st)) [freq_data (bufs st)])
    as [[[] | e] [ta das]]; cbn [snd bufs with_bufs];
    [| eexists; reflexivity].
  match goal with
  | |- context [prune_data now ?t ?d] =>
      destruct (prune_data now t d) as [[[] | e] [ta' das']]
  end; cbn [snd bufs with_bufs]; [| eexists; reflexivity].
  match goal with
  | |- context [prune_data now ?t ?d] =>
      destruct (prune_data now t d) as [r [ta'' das'']]
  end; cbn [snd bufs with_bufs]. eexists; reflexivity.
Qed.

Lemma update_synced (now : Q) (st : state) :
  both_synced st -> both_synced (snd (update now st)).
Proof.
  intros Hs. rewrite update_unfold.
  destruct (prune_all_frame now st) as (b' & Hframe).
  destruct (prune_all now st) as [[[] | e] st1]; simpl in Hframe; subst st1.
  - match goal with
    | |- context [redraw_all now ?s] =>
        pose proof (redraw_all_spec now s) as Hre;
        destruct (redraw_all now s) as [r' st']
    end.
    destruct (Hre r' st' eq_refl) as (_ & _ & Hsync & _).
    apply Hsync. rewrite drain_loop_spec. exact Hs.
  - exact Hs.
Qed.

Lemma run_synced (evs : list event) :
  forall st, both_synced st -> both_synced (run evs st).
Proof.
  induction evs as [| ev evs IH]; intros st Hs; [exact Hs |].
  simpl. apply IH. destruct ev as [item | now]; simpl.
  - exact Hs.
  - now apply update_synced.
Qed.

(** C6. Whenever the position chart or the velocity chart is redrawn,
    the limits passed to the degree axis are [rad2deg] of the limits
    passed to the radian axis, and [rad2deg] is the linear conversion
    [rad * 180/pi]; both limits are finite.  The relation then holds in
    every state reached from the initial one, for both charts: an axis
    pair has no limits yet, or has limits related in this way. *)
Theorem degree_axis_synchronized :
  (forall q, exists d, rad2deg (Fin q) = Fin d /\ d == q * (180 / np_pi))
  /\ (forall now st st',
        shown PositionSeries (bufs st) = true ->
        redraw_positions now st = (Ok tt, st') ->
        exists lo hi,
          ylim (ax_pos st') = Some (Fin lo, Fin hi)
          /\ ylim (ax_pos_deg st') = Some (rad2deg (Fin lo), rad2deg (Fin hi)))
  /\ (forall now st st',
        shown VelocitySeries (bufs st) = true ->
        redraw_velocities now st = (Ok tt, st') ->
        exists lo hi,
          ylim (ax_vel st') = Some (Fin lo, Fin hi)
          /\ ylim (ax_vel_deg st') = Some (rad2deg (Fin lo), rad2deg (Fin hi)))
  /\ (forall evs,
        synced (ax_pos (run evs initial_state)) (ax_pos_deg (run evs initial_state))
        /\ synced (ax_vel (run evs initial_state)) (ax_vel_deg (run evs initial_state))).
Proof.
  split; [| split; [| split]].
  - intros q. eexists. split; [reflexivity |]. unfold Qdiv. ring.
  - intros now st st' Hg Hre.
    pose proof (redraw_positions_spec now st) as H. cbv zeta in H.
    rewrite Hre in H. destruct H as (_ & _ & Hdraw).
    destruct (Hdraw Hg) as (_ & lo & hi & Hy & Hyd). now exists lo, hi.
  - intros now st st' Hg Hre.
    pose proof (redraw_velocities_spec now st) as H. cbv zeta in H.
    rewrite Hre in H. destruct H as (_ & _ & Hdraw).
    destruct (Hdraw Hg) as (_ & lo & hi & Hy & Hyd). now exists lo, hi.
  - intros evs. apply run_synced. split; exact I.
Qed.

Lemma degree_axis_synchronized_witness :
  exists lo hi,
    ylim (ax_pos (snd (redraw_positions (1 # 2)
           (with_bufs (append_positions (PyNum 0)
                         (PySeq (map PyNum [1; 2; 3; 4; 5; 6; 7; 8; 9; 10]))
                         (PySeq (map PyNum [0; 0; 0; 0; 0; 0; 0; 0; 0; -3]))
                         empty_buffers) initial_state))))
    = Some (Fin lo, Fin hi)
    /\ ylim (ax_pos_deg (snd (redraw_positions (1 # 2)
           (with_bufs (append_positions (PyNum 0)
                         (PySeq (map PyNum [1; 2; 3; 4; 5; 6; 7; 8; 9; 10]))
                         (PySeq (map PyNum [0; 0; 0; 0; 0; 0; 0; 0; 0; -3]))
                         empty_buffers) initial_state))))
       = Some (rad2deg (Fin lo), rad2deg (Fin hi)).
Proof.
  apply (proj1 (proj2 degree_axis_synchronized) (1 # 2)
           (with_bufs (append_positions (PyNum 0)
                         (PySeq (map PyNum [1; 2; 3; 4; 5; 6; 7; 8; 9; 10]))
                         (PySeq (map PyNum [0; 0; 0; 0; 0; 0; 0; 0; 0; -3]))
                         empty_buffers) initial_state)).
  - reflexivity.
  - vm_compute. reflexivity.
Defined.

(** ** Well-formed samples redraw without raising *)




Lemma numbers_map (qs : list Q) : numbers (map PyNum qs) = Ok qs.
Proof. induction qs as [| q qs IH]; simpl; [reflexivity | now rewrite IH]. Qed.

Lemma py_min_map (qs : list Q) : qs <> [] -> exists m, py_min (map PyNum qs) = Ok m.
Proof.
  intros Hne. unfold py_min. rewrite numbers_map.
  destruct qs; [congruence | eexists; reflexivity].
Qed.

Lemma py_max_map (qs : list Q) : qs <> [] -> exists m, py_max (map PyNum qs) = Ok m.
Proof.
  intros Hne. unfold py_max. rewrite numbers_map.
  destruct qs; [congruence | eexists; reflexivity].
Qed.






(** ** Runs fed by a producer of samples *)

Inductive input : Type :=
| Send (s : Sample)
| Timer (current_time : Q).

Definition to_event (i : input) : event :=
  match i with
  | Send s => Put (encode s)
  | Timer current_time => Tick current_time
  end.

Definition sent (ins : list input) : list Sample :=
  flat_map (fun i => match i with Send s => [s] | Timer _ => [] end) ins.

(** The timestamps of the samples of one series, in sending order. *)
Definition stamp (k : series) (s : Sample) : list Q :=
  match k, s with
  | FrequencySeries, Frequency t _ => [t]
  | PositionSeries, JointState t _ _ => [t]
  | VelocitySeries, JointRate t _ => [t]
  | _, _ => []
  end.

Definition stamps (k : series) (ss : list Sample) : list Q := flat_map (stamp k) ss.

(** What ingesting an encoded sample does to the buffers. *)
Definition absorb (b : buffers) (s : Sample) : buffers :=
  match s with
  | Frequency t hz => append_frequency (PyNum t) (PyNum hz) b
  | JointState t actual desired =>
      append_positions (PyNum t) (PySeq (map PyNum actual)) (PySeq (map PyNum desired)) b
  | JointRate t rates => append_velocities (PyNum t) (PySeq (map PyNum rates)) b
  end.

Lemma apply_outcome_encode (s : Sample) (b : buffers) :
  apply_outcome (outcome_of (encode s)) b = absorb b s
  /\ log_outcome (outcome_of (encode s)) = fun out => out.
Proof. destruct s; split; reflexivity. Qed.

Lemma drained_bufs_encode (ss : list Sample) :
  forall b, drained_bufs (map encode ss) b = fold_left absorb ss b.
Proof.
  induction ss as [| s ss IH]; intros b; [reflexivity |].
  simpl. rewrite <- IH. unfold drained_bufs. simpl.
  now rewrite (proj1 (apply_outcome_encode s b)).
Qed.

Lemma printed_encode (ss : list Sample) : printed (map encode ss) = [].
Proof.
  induction ss as [| s ss IH]; [reflexivity |].
  simpl. rewrite IH. destruct s; reflexivity.
Qed.

Lemma times_absorb (k : series) (ss : list Sample) :
  forall b, times k (fold_left absorb ss b) = times k b ++ map PyNum (stamps k ss).
Proof.
  induction ss as [| s ss IH]; intros b; simpl.
  - now rewrite app_nil_r.
  - rewrite IH. unfold stamps. simpl. rewrite map_app, app_assoc. f_equal.
    destruct k, s; simpl; now rewrite ?app_nil_r.
Qed.












(** ** Timestamps in order, and the window *)


Fixpoint nondecreasing (qs : list Q) : bool :=
  match qs with
  | [] => true
  | a :: rest =>
      match rest with
      | [] => true
      | b :: _ => Qle_bool a b && nondecreasing rest
      end
  end.

(** The timestamps of a time array are numbers in non-decreasing order. *)
Definition chronological (ts : list pyval) : Prop :=
  exists qs, ts = map PyNum qs /\ nondecreasing qs = true.

(** Every retained timestamp [t] satisfies [now - t <= max_time_window]. *)
Definition within_window (now : Q) (ts : list pyval) : Prop :=
  Forall (fun t => exists q, t = PyNum q /\ now - q <= max_time_window) ts.

(** The timestamp of a sample, and those of a sequence of samples. *)
Definition timestamp (s : Sample) : Q :=
  match s with
  | Frequency t _ => t
  | JointState t _ _ => t
  | JointRate t _ => t
  end.

Lemma nondecreasing_sorted (qs : list Q) :
  nondecreasing qs = true <-> StronglySorted Qle qs.
Proof.
  split.
  - intros H. apply Sorted_StronglySorted; [exact Qle_trans |].
    induction qs as [| a [| b rest] IH]; [constructor | repeat constructor |].
    simpl in H. apply andb_prop in H. destruct H as [Hab Hrest].
    constructor; [now apply IH |]. constructor. now apply Qle_bool_iff.
  - intros H. apply StronglySorted_Sorted in H.
    induction H as [| a l Hl IH Hhd]; [reflexivity |].
    destruct l as [| b rest]; [reflexivity |].
    simpl. inversion Hhd; subst. apply andb_true_intro. split.
    + now apply Qle_bool_iff.
    + exact IH.
Qed.

Lemma StronglySorted_app_r {A : Type} (R : A -> A -> Prop) (l1 l2 : list A) :
  StronglySorted R (l1 ++ l2) -> StronglySorted R l2.
Proof.
  induction l1 as [| a l1 IH]; simpl; [auto |].
  intros H. apply StronglySorted_inv in H. now apply IH.
Qed.

Lemma StronglySorted_app_l {A : Type} (R : A -> A -> Prop) (l1 l2 : list A) :
  StronglySorted R (l1 ++ l2) -> StronglySorted R l1.
Proof.
  induction l1 as [| a l1 IH]; simpl; [constructor |].
  intros H. apply StronglySorted_inv in H. destruct H as [Hs Hall].
  constructor; [now apply IH |].
  apply Forall_app in Hall. tauto.
Qed.

Lemma StronglySorted_skipn_app {A : Type} (R : A -> A -> Prop) (n : nat)
    (l1 l2 : list A) :
  StronglySorted R (l1 ++ l2) -> StronglySorted R (skipn n l1 ++ l2).
Proof.
  intros H. rewrite <- (firstn_skipn n l1), <- app_assoc in H.
  now apply StronglySorted_app_r in H.
Qed.

Lemma window_of_stopped (now : Q) (qs : list Q) :
  StronglySorted Qle qs ->
  stopped now (Ok tt) (map PyNum qs) ->
  within_window now (map PyNum qs).
Proof.
  intros Hsorted Hstop. destruct qs as [| q qs]; [constructor |].
  simpl in Hstop. destruct Hstop as [[_ Hold] | (e & He & _)]; [| discriminate].
  injection Hold as Hold. apply negb_false_iff, Qle_bool_iff in Hold.
  apply StronglySorted_inv in Hsorted. destruct Hsorted as [_ Hall].
  constructor.
  - exists q. split; [reflexivity | exact Hold].
  - apply Forall_map. revert Hall. apply Forall_impl.
    intros q' Hq. exists q'. split; [reflexivity |].
    unfold max_time_window in *. lra.
Qed.

Lemma times_pruned (k : series) (nf np nv : nat) (b : buffers) :
  times k (drop_front VelocitySeries nv
             (drop_front PositionSeries np (drop_front FrequencySeries nf b)))
  = skipn (match k with
           | FrequencySeries => nf
           | PositionSeries => np
           | VelocitySeries => nv
           end) (times k b).
Proof. destruct k; reflexivity. Qed.

Lemma is_num_map (qs : list Q) : Forall is_num (map PyNum qs).
Proof. apply Forall_map, Forall_forall. intros q _. now exists q. Qed.

(** The prune step on buffers whose time arrays are in order: it
    returns normally, keeps the order, and leaves only timestamps
    within the window. *)
Lemma prune_all_chronological (now : Q) (st : state) :
  parallel (bufs st) ->
  (forall k, chronological (times k (bufs st))) ->
  exists st1,
    prune_all now st = (Ok tt, st1)
    /\ forall k, chronological (times k (bufs st1))
                 /\ within_window now (times k (bufs st1))
                 /\ exists n, times k (bufs st1) = skipn n (times k (bufs st)).
Proof.
  intros Hpar Hchrono.
  destruct (prune_all_spec now st Hpar) as (nf & np & nv & r & Hprune & Hstop & Hok).
  assert (Hnum : forall k, Forall is_num (times k (bufs st))).
  { intros k. destruct (Hchrono k) as (qs & -> & _). apply is_num_map. }
  rewrite (Hok Hnum) in *. destruct (Hstop eq_refl) as (Hsf & Hsp & Hsv).
  eexists. split; [exact Hprune |].
  intros k. cbn [bufs with_bufs]. rewrite times_pruned.
  destruct (Hchrono k) as (qs & Hqs & Hsorted).
  apply nondecreasing_sorted in Hsorted.
  assert (Hkept : stopped now (Ok tt)
                    (skipn (match k with
                            | FrequencySeries => nf
                            | PositionSeries => np
                            | VelocitySeries => nv
                            end) (times k (bufs st))))
    by (destruct k; assumption).
  rewrite Hqs in *. rewrite skipn_map in *.
  pose proof (StronglySorted_skipn_app Qle
                (match k with
                 | FrequencySeries => nf
                 | PositionSeries => np
                 | VelocitySeries => nv
                 end) qs [])
    as Hs.
  rewrite !app_nil_r in Hs. specialize (Hs Hsorted).
  split; [| split].
  - eexists. split; [reflexivity |]. now apply nondecreasing_sorted.
  - now apply window_of_stopped.
  - eexists. symmetry. apply skipn_map.
Qed.

(** The invariant of a run fed with samples: for each series, the
    timestamps buffered, then those waiting in the queue, then those
    still to be sent, are numbers in non-decreasing order. *)
Definition chrono_inv (future : list Sample) (st : state) : Prop :=
  parallel (bufs st)
  /\ exists ss,
       data_queue st = map encode ss
       /\ forall k, exists qs,
            times k (bufs st) = map PyNum qs
            /\ StronglySorted Qle (qs ++ stamps k ss ++ stamps k future).

Lemma stamps_app (k : series) (ss1 ss2 : list Sample) :
  stamps k (ss1 ++ ss2) = stamps k ss1 ++ stamps k ss2.
Proof. apply flat_map_app. Qed.

Lemma chrono_step (i : input) (ins : list input) (st : state) :
  chrono_inv (sent (i :: ins)) st -> chrono_inv (sent ins) (step st (to_event i)).
Proof.
  intros (Hpar & ss & Hq & Hk). destruct i as [s | now]; simpl.
  - split; [exact Hpar |]. exists (ss ++ [s]). split.
    + simpl. now rewrite Hq, map_app.
    + intros k. destruct (Hk k) as (qs & Hqs & Hsorted).
      exists qs. split; [exact Hqs |].
      rewrite stamps_app, <- app_assoc. unfold stamps at 2. simpl.
      rewrite app_nil_r. exact Hsorted.
  - assert (Hnum : forall k, Forall is_num (times k (bufs st))).
    { intros k. destruct (Hk k) as (qs & -> & _). apply is_num_map. }
    destruct (update_bufs_queue now st Hpar) as (nf & np & nv & r & _ & _ & Hok & Hup).
    cbv zeta in Hup. rewrite (Hok Hnum) in Hup. destruct Hup as (Hb & Hq' & _).
    split; [now apply update_parallel |].
    exists []. split; [exact Hq' |].
    intros k. destruct (Hk k) as (qs & Hqs & Hsorted).
    rewrite Hb, Hq, drained_bufs_encode, times_absorb, times_pruned, Hqs.
    rewrite skipn_map, <- map_app.
    eexists. split; [reflexivity |].
    simpl. rewrite <- app_assoc. now apply StronglySorted_skipn_app.
Qed.

Lemma run_chrono (ins : list input) :
  forall st, chrono_inv (sent ins) st -> chrono_inv [] (run (map to_event ins) st).
Proof.
  induction ins as [| i ins IH]; intros st Hinv; [exact Hinv |].
  simpl. apply IH. now apply chrono_step.
Qed.

Lemma chrono_inv_chronological (future : list Sample) (st : state) :
  chrono_inv future st -> forall k, chronological (times k (bufs st)).
Proof.
  intros (_ & ss & _ & Hk) k. destruct (Hk k) as (qs & Hqs & Hsorted).
  exists qs. split; [exact Hqs |].
  apply nondecreasing_sorted. now apply StronglySorted_app_l in Hsorted.
Qed.

Lemma initial_chrono (ss : list Sample) :
  (forall k, nondecreasing (stamps k ss) = true) -> chrono_inv ss initial_state.
Proof.
  intros H. split; [repeat split |]. exists []. split; [reflexivity |].
  intros k. exists []. split; [destruct k; reflexivity |].
  simpl. now apply nondecreasing_sorted.
Qed.

Lemma stamps_incl (k : series) (ss : list Sample) (q : Q) :
  In q (stamps k ss) -> In q (map timestamp ss).
Proof.
  induction ss as [| s ss IH]; simpl; [auto |].
  unfold stamps. simpl. rewrite in_app_iff. intros [H | H].
  - left. destruct k, s; simpl in H; tauto.
  - right. now apply IH.
Qed.

Lemma stamps_sorted (k : series) (ss : list Sample) :
  nondecreasing (map timestamp ss) = true -> nondecreasing (stamps k ss) = true.
Proof.
  rewrite !nondecreasing_sorted.
  induction ss as [| s ss IH]; simpl; intros H; [constructor |].
  apply StronglySorted_inv in H. destruct H as [Hs Hall].
  specialize (IH Hs).
  assert (Hle : Forall (Qle (timestamp s)) (stamps k ss)).
  { apply Forall_forall. intros q Hq.
    rewrite Forall_forall in Hall. apply Hall. now apply stamps_incl in Hq. }
  unfold stamps. simpl. fold (stamps k ss).
  destruct k, s; simpl; try exact IH; now constructor.
Qed.

(** A run fed with samples whose timestamps are in order, series by
    series, keeps every time array in order, and the prune step of a
    tick at any time returns normally and leaves only timestamps within
    the window. *)
Lemma run_then_prune (ins : list input) (now : Q) :
  (forall k, nondecreasing (stamps k (sent ins)) = true) ->
  (forall k, chronological (times k (bufs (run (map to_event ins) initial_state))))
  /\ exists st1,
       prune_all now (run (map to_event ins) initial_state) = (Ok tt, st1)
       /\ forall k, chronological (times k (bufs st1))
                    /\ within_window now (times k (bufs st1)).
Proof.
  intros Hsorted.
  pose proof (run_chrono ins _ (initial_chrono _ Hsorted)) as Hinv.
  pose proof (chrono_inv_chronological _ _ Hinv) as Hchrono.
  split; [exact Hchrono |].
  destruct (prune_all_chronological now _ (proj1 Hinv) Hchrono) as (st1 & Hprune & Hk).
  exists st1. split; [exact Hprune |].
  intros k. destruct (Hk k) as (Hc & Hw & _). split; assumption.
Qed.

(** C1. For every sequence of ingested samples whose timestamps are
    non-decreasing, with ticks at any times in between, and every
    current time [now]: the prune step returns normally and every
    timestamp [t] it retains, in each of the three series, satisfies
    [now - t <= 1].  In particular, after ingesting the frequency samples
    (0.0, 50.0) and (0.5, 52.0) on a tick at 0.5 the frequency series
    holds both, and the prune step at [now = 1.6] leaves it empty. *)
Theorem prune_keeps_window :
  (forall ins now,
     nondecreasing (map timestamp (sent ins)) = true ->
     exists st1,
       prune_all now (run (map to_event ins) initial_state) = (Ok tt, st1)
       /\ forall k, within_window now (times k (bufs st1)))
  /\ (time_data (bufs (run (map to_event
                              [Send (Frequency 0 50); Send (Frequency (1 # 2) 52);
                               Timer (1 # 2)]) initial_state))
      = [PyNum 0; PyNum (1 # 2)]
      /\ freq_data (bufs (run (map to_event
                                 [Send (Frequency 0 50); Send (Frequency (1 # 2) 52);
                                  Timer (1 # 2)]) initial_state))
         = [PyNum 50; PyNum 52]
      /\ exists st1,
           prune_all (16 # 10)
             (run (map to_event
                     [Send (Frequency 0 50); Send (Frequency (1 # 2) 52);
                      Timer (1 # 2)]) initial_state)
           = (Ok tt, st1)
           /\ time_data (bufs st1) = [] /\ freq_data (bufs st1) = []).
Proof.
  split.
  - intros ins now Hsorted.
    destruct (run_then_prune ins now (fun k => stamps_sorted k _ Hsorted))
      as (_ & st1 & Hprune & Hk).
    exists st1. split; [exact Hprune |]. intros k. apply Hk.
  - split; [reflexivity |]. split; [reflexivity |].
    eexists. split; [vm_compute; reflexivity |]. split; reflexivity.
Qed.

Lemma prune_keeps_window_witness :
  exists st1,
    prune_all (3 # 1)
      (run (map to_event
              [Send (Frequency 0 50); Send (JointRate 1 [0; 0; 0; 0; 0; 0; 0; 0; 0; 0]);
               Timer (3 # 2); Send (Frequency (5 # 2) 49)]) initial_state)
    = (Ok tt, st1)
    /\ forall k, within_window (3 # 1) (times k (bufs st1)).
Proof.
  apply (proj1 prune_keeps_window
           [Send (Frequency 0 50); Send (JointRate 1 [0; 0; 0; 0; 0; 0; 0; 0; 0; 0]);
            Timer (3 # 2); Send (Frequency (5 # 2) 49)] (3 # 1)).
  reflexivity.
Defined.

(** C3, as stated, fails: nothing in the ingest step compares a new
    timestamp with the buffered ones.  The producer sends the frequency
    samples (5.0, 50.0) and then (0.0, 50.0); after the tick at 5.5 the
    time array is [5.0, 0.0], which is not in order, and the prune step
    of a tick at 5.6 stops at the front entry 5.0 and retains 0.0, whose
    age 5.6 exceeds the window. *)
Lemma series_invariant_counterexample :
  let st := run (map to_event
                   [Send (Frequency 5 50); Send (Frequency 0 50); Timer (55 # 10)])
                initial_state in
  time_data (bufs st) = [PyNum 5; PyNum 0]
  /\ ~ chronological (time_data (bufs st))
  /\ prune_all (56 # 10) st = (Ok tt, st)
  /\ ~ within_window (56 # 10) (time_data (bufs (snd (prune_all (56 # 10) st)))).
Proof.
  cbv zeta. split; [reflexivity |]. split; [| split].
  - intros (qs & Hqs & Hsorted).
    change (time_data _) with [PyNum 5; PyNum 0] in Hqs.
    destruct qs as [| a [| b [| c qs]]]; try discriminate.
    injection Hqs as <- <-. discriminate.
  - vm_compute. reflexivity.
  - intros Hw.
    change (time_data _) with [PyNum 5; PyNum 0] in Hw.
    inversion Hw as [| ? ? _ Hrest]; subst.
    inversion Hrest as [| ? ? (q & Hq & Hle) _]; subst.
    injection Hq as <-. unfold max_time_window in Hle. lra.
Qed.

(** C3, amended.  In every run in which the samples of each series are
    sent with non-decreasing timestamps, each series' timestamps are
    non-decreasing in every state reached, and right after the prune
    step of a tick at any time they are still non-decreasing and all
    within the window.  Of the two mutation paths, front-eviction on
    prune preserves the order unconditionally, and append on ingest
    preserves it when the appended timestamp is not smaller than the
    buffered ones. *)
Theorem series_invariant :
  (forall ins now,
     (forall k, nondecreasing (stamps k (sent ins)) = true) ->
     (forall k, chronological (times k (bufs (run (map to_event ins) initial_state))))
     /\ exists st1,
          prune_all now (run (map to_event ins) initial_state) = (Ok tt, st1)
          /\ forall k, chronological (times k (bufs st1))
                       /\ within_window now (times k (bufs st1)))
  /\ (forall now st,
        parallel (bufs st) ->
        (forall k, chronological (times k (bufs st))) ->
        forall k, chronological (times k (bufs (snd (prune_all now st)))))
  /\ (forall s st,
        (forall k, chronological (times k (bufs st))) ->
        (forall k q t, In (PyNum q) (times k (bufs st)) -> In t (stamp k s) -> q <= t) ->
        forall k, chronological (times k (bufs (snd (ingest (encode s) st))))).
Proof.
  split; [| split].
  - intros ins now Hsorted. apply run_then_prune, Hsorted.
  - intros now st Hpar Hchrono k.
    destruct (prune_all_chronological now st Hpar Hchrono) as (st1 & -> & Hk).
    apply Hk.
  - intros s st Hchrono Hlast k.
    rewrite ingest_outcome. cbn [snd bufs with_bufs].
    rewrite (proj1 (apply_outcome_encode s (bufs st))).
    change (absorb (bufs st) s) with (fold_left absorb [s] (bufs st)).
    rewrite times_absorb.
    destruct (Hchrono k) as (qs & Hqs & Hsorted).
    rewrite Hqs, <- map_app. eexists. split; [reflexivity |].
    apply nondecreasing_sorted. apply nondecreasing_sorted in Hsorted.
    unfold stamps. simpl. rewrite app_nil_r.
    assert (Hle : forall q t, In q qs -> In t (stamp k s) -> q <= t).
    { intros q t Hq Ht. apply (Hlast k q t); [| exact Ht].
      rewrite Hqs. now apply in_map. }
    clear Hqs Hlast Hchrono.
    induction Hsorted as [| a l Hl IH Hall]; simpl.
    + destruct k, s; simpl; repeat constructor.
    + constructor.
      * apply IH. intros q t Hq Ht. apply Hle; [now right | exact Ht].
      * apply Forall_app. split; [exact Hall |].
        apply Forall_forall. intros t Ht. apply Hle; [now left | exact Ht].
Qed.

Lemma series_invariant_witness :
  (forall k, chronological
               (times k (bufs (run (map to_event
                                      [Send (Frequency 0 50); Timer (1 # 2);
                                       Send (Frequency (1 # 2) 52)])
                                   initial_state))))
  /\ exists st1,
       prune_all (16 # 10)
         (run (map to_event
                 [Send (Frequency 0 50); Timer (1 # 2); Send (Frequency (1 # 2) 52)])
              initial_state)
       = (Ok tt, st1)
       /\ forall k, chronological (times k (bufs st1))
                    /\ within_window (16 # 10) (times k (bufs st1)).
Proof.
  apply (proj1 series_invariant
           [Send (Frequency 0 50); Timer (1 # 2); Send (Frequency (1 # 2) 52)]
           (16 # 10)).
  intros k. destruct k; reflexivity.
Defined.

(** ** The order of the steps of a tick *)

(** C2, as stated, fails.  With the stale frequency sample (0.0, 50.0)
    waiting in the queue, the tick at 5.0 leaves it in the buffer and
    draws it on the frequency chart: the prune step ran before the
    queue was drained.  In the order tick, ingest, prune, redraw the
    sample would have been evicted and the chart left as it was. *)
Lemma tick_order_counterexample :
  let st := run [Put (encode (Frequency 0 50))] initial_state in
  time_data (bufs (snd (update 5 st))) = [PyNum 0]
  /\ artists (ax_freq (snd (update 5 st)))
     = [HLine 50 "50 Hz Reference";
        Line [PyNum 0] [PyNum 50] false "Actual Frequency" None]
  /\ time_data (bufs (snd (update_ingest_first 5 st))) = []
  /\ ax_freq (snd (update_ingest_first 5 st)) = ax_freq st
  /\ update 5 st <> update_ingest_first 5 st.
Proof.
  cbv zeta. split; [reflexivity |]. split; [reflexivity |].
  split; [reflexivity |]. split; [reflexivity |].
  intros H. apply (f_equal (fun p => time_data (bufs (snd p)))) in H.
  vm_compute in H. discriminate.
Qed.

(** C2, amended.  Every tick runs in the order tick, prune, ingest,
    redraw.  The prune step comes first: if it raises, the tick ends
    there, with the queue not read and no chart redrawn; otherwise the
    queue is drained into the pruned buffers and the charts are redrawn
    from the buffers as the drain left them.  So the samples drained on
    a tick are all in the buffers when the charts are redrawn, behind
    what the prune step retained, whatever their age. *)
Theorem tick_order :
  (forall now st st1,
     prune_all now st = (Ok tt, st1) ->
     update now st = redraw_all now (snd (drain st1)))
  /\ (forall now st e st1,
        prune_all now st = (Raise e, st1) ->
        update now st = (Raise e, st1)
        /\ data_queue st1 = data_queue st
        /\ (forall k, chart_kept k st st1))
  /\ (forall now st ss st1,
        prune_all now st = (Ok tt, st1) ->
        data_queue st = map encode ss ->
        data_queue (snd (update now st)) = []
        /\ forall k, times k (bufs (snd (update now st)))
                     = times k (bufs st1) ++ map PyNum (stamps k ss)).
Proof.
  split; [| split].
  - intros now st st1 Hprune. rewrite update_unfold, Hprune. reflexivity.
  - intros now st e st1 Hprune. rewrite update_unfold, Hprune.
    destruct (prune_all_frame now st) as (b' & Hframe).
    rewrite Hprune in Hframe. simpl in Hframe. subst st1.
    split; [reflexivity |]. split; [reflexivity |].
    intros k. destruct k; simpl; auto.
  - intros now st ss st1 Hprune Hq. rewrite update_unfold, Hprune.
    destruct (prune_all_frame now st) as (b' & Hframe).
    rewrite Hprune in Hframe. simpl in Hframe. subst st1.
    match goal with
    | |- context [redraw_all now ?s] =>
        pose proof (redraw_all_spec now s) as Hre;
        destruct (redraw_all now s) as [r' st']
    end.
    destruct (Hre r' st' eq_refl) as ((Hb & Hq' & _) & _).
    cbn [snd]. rewrite Hb, Hq', drain_loop_spec. cbn [bufs data_queue with_bufs].
    rewrite Hq, drained_bufs_encode. split.
    + destruct ss; reflexivity.
    + intros k. apply times_absorb.
Qed.

Lemma tick_order_witness :
  data_queue (snd (update 5 (run [Put (encode (Frequency 0 50))] initial_state))) = []
  /\ forall k,
       times k (bufs (snd (update 5 (run [Put (encode (Frequency 0 50))] initial_state))))
       = times k (bufs (run [Put (encode (Frequency 0 50))] initial_state))
         ++ map PyNum (stamps k [Frequency 0 50]).
Proof.
  apply (proj2 (proj2 tick_order) 5
           (run [Put (encode (Frequency 0 50))] initial_state)
           [Frequency 0 50]
           (run [Put (encode (Frequency 0 50))] initial_state));
    reflexivity.
Defined.

(** * Further properties of the renderer *)

(** ** What [prune_data] removes *)

Lemma too_old_true (now : Q) (t : pyval) :
  too_old now t = Ok true <-> exists q, t = PyNum q /\ max_time_window < now - q.
Proof.
  destruct t as [q | s | items |]; simpl;
    try (split; [discriminate | intros (q' & Hq & _); discriminate]).
  split.
  - intros H. injection H as H. apply negb_true_iff in H.
    exists q. split; [reflexivity |].
    apply Qnot_le_lt. intros Hle. apply Qle_bool_iff in Hle. congruence.
  - intros (q' & Hq & Hlt). injection Hq as <-. f_equal.
    apply negb_true_iff. destruct (Qle_bool (now - q) max_time_window) eqn:E;
      [| reflexivity].
    apply Qle_bool_iff in E. apply Qlt_not_le in Hlt. contradiction.
Qed.

(** X1. On arrays as long as the time array, [prune_data] removes a
    prefix only, the same number [n] of leading entries from the time
    array and from every data array, and every timestamp it removes is a
    number older than the window: an entry within the window is never
    evicted, and (timestamp, value) pairs stay aligned. *)
Theorem prune_data_evicts_old_prefix (now : Q) (time_array : list pyval)
    (data_arrays : list (list pyval)) :
  Forall (fun d => length d = length time_array) data_arrays ->
  exists n r,
    prune_data now time_array data_arrays
    = (r, (skipn n time_array, map (skipn n) data_arrays))
    /\ (n <= length time_array)%nat
    /\ Forall (fun t => exists q, t = PyNum q /\ max_time_window < now - q)
              (firstn n time_array).
Proof.
  intros Hlen.
  destruct (prune_data_spec now time_array data_arrays Hlen)
    as (n & r & Heq & Hn & Hdrop & _).
  exists n, r. split; [exact Heq |]. split; [exact Hn |].
  revert Hdrop. apply Forall_impl. intros t. apply too_old_true.
Qed.

Lemma prune_data_evicts_old_prefix_witness :
  exists n r,
    prune_data 2 [PyNum 0; PyNum (3 # 2)] [[PyNum 50; PyNum 52]]
    = (r, (skipn n [PyNum 0; PyNum (3 # 2)], map (skipn n) [[PyNum 50; PyNum 52]]))
    /\ (n <= length [PyNum 0; PyNum (3 # 2)])%nat
    /\ Forall (fun t => exists q, t = PyNum q /\ max_time_window < 2 - q)
              (firstn n [PyNum 0; PyNum (3 # 2)]).
Proof.
  apply (prune_data_evicts_old_prefix 2 [PyNum 0; PyNum (3 # 2)]
           [[PyNum 50; PyNum 52]]).
  repeat constructor.
Defined.

(** The entries of a sorted list that are within the window. *)
Definition in_window (now : Q) (q : Q) : bool := Qle_bool (now - q) max_time_window.

Lemma filter_none {A : Type} (f : A -> bool) (l : list A) :
  Forall (fun x => f x = false) l -> filter f l = [].
Proof.
  induction 1 as [| x l Hx _ IH]; simpl; [reflexivity |]. now rewrite Hx.
Qed.

Lemma filter_all {A : Type} (f : A -> bool) (l : list A) :
  Forall (fun x => f x = true) l -> filter f l = l.
Proof.
  induction 1 as [| x l Hx _ IH]; simpl; [reflexivity |]. now rewrite Hx, IH.
Qed.

(** X2. On a time array of numbers in non-decreasing order, with data
    arrays of the same length, [prune_data] returns normally and keeps
    exactly the entries within the window, [now - t <= 1] (an entry
    exactly one second old is kept); each data array loses as many
    leading entries as the time array. *)
Theorem prune_data_sorted_exact (now : Q) (qs : list Q)
    (data_arrays : list (list pyval)) :
  nondecreasing qs = true ->
  Forall (fun d => length d = length qs) data_arrays ->
  prune_data now (map PyNum qs) data_arrays
  = (Ok tt,
     (map PyNum (filter (in_window now) qs),
      map (skipn (length qs - length (filter (in_window now) qs))) data_arrays)).
Proof.
  intros Hsorted Hlen. apply nondecreasing_sorted in Hsorted.
  assert (Hlen' : Forall (fun d => length d = length (map PyNum qs)) data_arrays)
    by (now rewrite length_map).
  destruct (prune_data_spec now (map PyNum qs) data_arrays Hlen')
    as (n & r & Heq & Hn & Hdrop & Hstop).
  rewrite length_map in Hn. rewrite skipn_map in Heq, Hstop.
  rewrite firstn_map in Hdrop.
  destruct (stopped_num now r _ (is_num_map _) Hstop) as (Hstop' & ->).
  assert (Hkept : StronglySorted Qle (skipn n qs)).
  { pose proof (StronglySorted_skipn_app Qle n qs [] ) as H.
    rewrite !app_nil_r in H. now apply H. }
  pose proof (window_of_stopped now _ Hkept Hstop') as Hwin.
  assert (Hfilter : filter (in_window now) qs = skipn n qs).
  { rewrite <- (firstn_skipn n qs) at 1. rewrite filter_app.
    rewrite filter_none, filter_all; [reflexivity | |].
    - unfold within_window in Hwin. rewrite Forall_map in Hwin.
      revert Hwin. apply Forall_impl. intros q (q' & Hq & Hle).
      injection Hq as <-. now apply Qle_bool_iff.
    - rewrite Forall_map in Hdrop. revert Hdrop. apply Forall_impl.
      intros q Hq. simpl in Hq. injection Hq as Hq.
      now apply negb_true_iff in Hq. }
  rewrite Heq, Hfilter, length_skipn.
  replace (length qs - (length qs - n))%nat with n by lia. reflexivity.
Qed.

Lemma prune_data_sorted_exact_witness :
  prune_data 2 (map PyNum [0; 1; 3 # 2]) [[PyNum 50; PyNum 51; PyNum 52]]
  = (Ok tt,
     (map PyNum (filter (in_window 2) [0; 1; 3 # 2]),
      map (skipn (length [0; 1; 3 # 2]
                  - length (filter (in_window 2) [0; 1; 3 # 2])))
          [[PyNum 50; PyNum 51; PyNum 52]])).
Proof.
  apply (prune_data_sorted_exact 2 [0; 1; 3 # 2] [[PyNum 50; PyNum 51; PyNum 52]]).
  - reflexivity.
  - repeat constructor.
Defined.

(** ** The prune step as a whole *)

Lemma prune_data_stopped (now : Q) (r : result unit) (kept : list pyval)
    (das : list (list pyval)) :
  stopped now r kept -> prune_data now kept das = (r, (kept, das)).
Proof.
  destruct kept as [| t kept]; simpl.
  - intros ->. reflexivity.
  - intros [[-> ->] | (e & -> & ->)]; reflexivity.
Qed.

Lemma prune_series_stopped (k : series) (now : Q) (r : result unit) (st : state) :
  stopped now r (times k (bufs st)) -> prune_series k now st = (r, st).
Proof.
  intros Hstop.
  destruct k; simpl in *;
    unfold prune_frequency, prune_positions, prune_velocities;
    rewrite (prune_data_stopped now r _ _ Hstop); simpl;
    destruct st as [[] ? ? ? ? ? ? ? ? ?]; reflexivity.
Qed.

(** How the three calls went: all three ran, or the call on the
    positions raised, or the call on the frequency raised. *)
Inductive prune_run (now : Q) (b : buffers) : result unit -> Prop :=
| AllRan (r : result unit) :
    stopped now (Ok tt) (time_data b) ->
    stopped now (Ok tt) (position_time b) ->
    stopped now r (velocity_time b) ->
    prune_run now b r
| PositionsRaised (e : exn) :
    stopped now (Ok tt) (time_data b) ->
    stopped now (Raise e) (position_time b) ->
    prune_run now b (Raise e)
| FrequencyRaised (e : exn) :
    stopped now (Raise e) (time_data b) ->
    prune_run now b (Raise e).

Lemma prune_all_trace (now : Q) (st : state) :
  parallel (bufs st) ->
  exists nf np nv r,
    let pruned := drop_front VelocitySeries nv
                    (drop_front PositionSeries np
                       (drop_front FrequencySeries nf (bufs st))) in
    prune_all now st = (r, with_bufs pruned st)
    /\ prune_run now pruned r
    /\ Forall (fun t => too_old now t = Ok true) (firstn nf (time_data (bufs st)))
    /\ Forall (fun t => too_old now t = Ok true) (firstn np (position_time (bufs st)))
    /\ Forall (fun t => too_old now t = Ok true) (firstn nv (velocity_time (bufs st))).
Proof.
  intros Hpar. unfold prune_all, bind.
  destruct (prune_series_spec FrequencySeries now st Hpar)
    as (nf & rf & Hf & _ & Hdf & Hsf).
  simpl prune_series in Hf. rewrite Hf. simpl times in Hdf, Hsf.
  destruct rf as [[] | e].
  - set (st1 := with_bufs (drop_front FrequencySeries nf (bufs st)) st).
    assert (Hpar1 : parallel (bufs st1))
      by (apply drop_front_parallel; exact Hpar).
    destruct (prune_series_spec PositionSeries now st1 Hpar1)
      as (np & rp & Hp & _ & Hdp & Hsp).
    simpl prune_series in Hp. rewrite Hp. simpl times in Hdp, Hsp.
    destruct rp as [[] | e].
    + set (st2 := with_bufs (drop_front PositionSeries np (bufs st1)) st1).
      assert (Hpar2 : parallel (bufs st2))
        by (apply drop_front_parallel; exact Hpar1).
      destruct (prune_series_spec VelocitySeries now st2 Hpar2)
        as (nv & rv & Hv & _ & Hdv & Hsv).
      simpl prune_series in Hv. rewrite Hv. simpl times in Hdv, Hsv.
      exists nf, np, nv, rv. cbv zeta. split; [reflexivity |].
      split; [apply AllRan; assumption |]. repeat split; assumption.
    + exists nf, np, 0%nat, (Raise e). cbv zeta. rewrite drop_front_0.
      split; [reflexivity |].
      split; [apply PositionsRaised; assumption |].
      repeat split; try assumption. constructor.
  - exists nf, 0%nat, 0%nat, (Raise e). cbv zeta. rewrite !drop_front_0.
    split; [reflexivity |].
    split; [apply FrequencyRaised; assumption |].
    repeat split; try assumption; constructor.
Qed.

Lemma prune_all_again (now : Q) (r : result unit) (st : state) :
  prune_run now (bufs st) r -> prune_all now st = (r, st).
Proof.
  intros Hrun. unfold prune_all, bind.
  destruct Hrun as [r Hf Hp Hv | e Hf Hp | e Hf].
  - pose proof (prune_series_stopped FrequencySeries now _ st Hf) as Ef.
    pose proof (prune_series_stopped PositionSeries now _ st Hp) as Ep.
    pose proof (prune_series_stopped VelocitySeries now _ st Hv) as Ev.
    cbn [prune_series] in Ef, Ep, Ev. now rewrite Ef, Ep, Ev.
  - pose proof (prune_series_stopped FrequencySeries now _ st Hf) as Ef.
    pose proof (prune_series_stopped PositionSeries now _ st Hp) as Ep.
    cbn [prune_series] in Ef, Ep. now rewrite Ef, Ep.
  - pose proof (prune_series_stopped FrequencySeries now _ st Hf) as Ef.
    cbn [prune_series] in Ef. now rewrite Ef.
Qed.

(** X3. The prune step is idempotent: on parallel arrays, pruning again
    at the same time changes nothing and ends the same way (normally, or
    with the same exception), so several timers firing at one instant
    prune no more than one does. *)
Theorem prune_all_idempotent (now : Q) (st st1 : state) (r : result unit) :
  parallel (bufs st) ->
  prune_all now st = (r, st1) ->
  prune_all now st1 = (r, st1).
Proof.
  intros Hpar Hprune.
  destruct (prune_all_trace now st Hpar) as (nf & np & nv & r' & Heq & Hrun & _).
  cbv zeta in *. rewrite Hprune in Heq. injection Heq as -> ->.
  now apply prune_all_again.
Qed.

Lemma prune_all_idempotent_witness :
  prune_all 2 (with_bufs (mkBuffers [PyNum 0; PyNum (3 # 2); PyStr "late"]
                                    [PyNum 50; PyNum 52; PyNum 51] [] [] [] [] [])
                         initial_state)
  = (Ok tt,
     with_bufs (mkBuffers [PyNum (3 # 2); PyStr "late"] [PyNum 52; PyNum 51]
                          [] [] [] [] [])
               initial_state)
  /\ prune_all 2 (with_bufs (mkBuffers [PyNum (3 # 2); PyStr "late"]
                                       [PyNum 52; PyNum 51] [] [] [] [] [])
                            initial_state)
     = (Ok tt,
        with_bufs (mkBuffers [PyNum (3 # 2); PyStr "late"] [PyNum 52; PyNum 51]
                             [] [] [] [] [])
                  initial_state).
Proof.
  split; [reflexivity |].
  apply (prune_all_idempotent 2
           (with_bufs (mkBuffers [PyNum 0; PyNum (3 # 2); PyStr "late"]
                                 [PyNum 50; PyNum 52; PyNum 51] [] [] [] [] [])
                      initial_state)).
  - repeat split.
  - reflexivity.
Defined.

(** ** A timestamp that is not a number *)

Lemma too_old_num (now : Q) (t : pyval) (b : bool) : too_old now t = Ok b -> is_num t.
Proof. destruct t as [q | | |]; simpl; try discriminate. intros _. now exists q. Qed.

Lemma update_bad_timestamp (k : series) (t : pyval) (rest : list pyval)
    (now : Q) (st : state) :
  parallel (bufs st) ->
  times k (bufs st) = t :: rest ->
  ~ is_num t ->
  exists e b',
    update now st = (Raise e, with_bufs b' st)
    /\ parallel b'
    /\ times k b' = t :: rest.
Proof.
  intros Hpar Hk Hbad.
  destruct (prune_all_trace now st Hpar)
    as (nf & np & nv & r & Heq & Hrun & Hdf & Hdp & Hdv).
  cbv zeta in *.
  set (pruned := drop_front VelocitySeries nv
                   (drop_front PositionSeries np
                      (drop_front FrequencySeries nf (bufs st)))) in *.
  assert (Hkept : times k pruned = t :: rest).
  { unfold pruned. rewrite times_pruned, Hk.
    assert (Hd : Forall (fun t => too_old now t = Ok true)
                   (firstn (match k with
                            | FrequencySeries => nf
                            | PositionSeries => np
                            | VelocitySeries => nv
                            end) (t :: rest)))
      by (rewrite <- Hk; destruct k; assumption).
    destruct (match k with
              | FrequencySeries => nf
              | PositionSeries => np
              | VelocitySeries => nv
              end) as [| n]; [reflexivity |].
    simpl in Hd. inversion Hd as [| ? ? Ht _]; subst.
    apply too_old_num in Ht. contradiction. }
  assert (Hstuck : forall r', stopped now r' (t :: rest) -> exists e, r' = Raise e).
  { intros r' [[_ Hold] | (e & -> & _)]; [| now exists e].
    apply too_old_num in Hold. contradiction. }
  assert (Hr : exists e, r = Raise e).
  { destruct Hrun as [r Hf Hp Hv | e Hf Hp | e Hf]; try (now exists e).
    destruct k; cbv beta iota delta [times] in Hkept.
    - rewrite Hkept in Hf. destruct (Hstuck _ Hf) as (e & He). discriminate.
    - rewrite Hkept in Hp. destruct (Hstuck _ Hp) as (e & He). discriminate.
    - rewrite Hkept in Hv. exact (Hstuck _ Hv). }
  destruct Hr as (e & ->).
  exists e, pruned. rewrite update_unfold, Heq.
  split; [reflexivity |]. split; [| exact Hkept].
  unfold pruned. repeat apply drop_front_parallel. exact Hpar.
Qed.

(** The items the producer puts during a run. *)
Definition puts (evs : list event) : list pyval :=
  flat_map (fun ev => match ev with Put item => [item] | Tick _ => [] end) evs.

(** X4. A timestamp that is not a number stops the renderer for good.
    The ingest step appends whatever timestamp a message carries; once
    such an entry is at the front of a time array, every tick raises in
    the prune step, before the queue is read: from then on, in every run,
    the entry stays where it is, no chart is ever redrawn, nothing is
    printed, and the queue only grows by what the producer puts. *)
Theorem bad_timestamp_stops_renderer (k : series) (t : pyval) (rest : list pyval)
    (st : state) :
  parallel (bufs st) ->
  times k (bufs st) = t :: rest ->
  ~ is_num t ->
  forall evs,
    times k (bufs (run evs st)) = t :: rest
    /\ (forall k', chart_kept k' st (run evs st))
    /\ stdout (run evs st) = stdout st
    /\ data_queue (run evs st) = data_queue st ++ puts evs
    /\ forall now, exists e, fst (update now (run evs st)) = Raise e.
Proof.
  intros Hpar Hk Hbad evs. revert st Hpar Hk.
  induction evs as [| ev evs IH]; intros st Hpar Hk.
  - simpl. rewrite app_nil_r.
    split; [exact Hk |]. split; [intros k'; destruct k'; simpl; auto |].
    split; [reflexivity |]. split; [reflexivity |].
    intros now. destruct (update_bad_timestamp k t rest now st Hpar Hk Hbad)
      as (e & b' & -> & _). now exists e.
  - simpl. destruct ev as [item | now]; simpl.
    + destruct (IH (with_queue (data_queue st ++ [item]) st) Hpar Hk)
        as (Ht & Hax & Hout & Hq & Hup).
      split; [exact Ht |]. split; [| split; [exact Hout | split; [| exact Hup]]].
      * intros k'. specialize (Hax k'). destruct k'; exact Hax.
      * rewrite Hq. simpl. now rewrite <- app_assoc.
    + destruct (update_bad_timestamp k t rest now st Hpar Hk Hbad)
        as (e & b' & -> & Hpar' & Hk').
      destruct (IH (with_bufs b' st) Hpar' Hk') as (Ht & Hax & Hout & Hq & Hup).
      split; [exact Ht |]. split; [| split; [exact Hout | split; [exact Hq | exact Hup]]].
      intros k'. specialize (Hax k'). destruct k'; exact Hax.
Qed.

Lemma bad_timestamp_stops_renderer_witness :
  let st := run [Put (PySeq [PyStr "frequency"; PySeq [PyStr "noon"; PyNum 50]]);
                 Tick 0] initial_state in
  let evs := [Put (encode (Frequency 1 50)); Tick 5] in
  times FrequencySeries (bufs (run evs st)) = [PyStr "noon"]
  /\ (forall k', chart_kept k' st (run evs st))
  /\ stdout (run evs st) = stdout st
  /\ data_queue (run evs st) = data_queue st ++ puts evs
  /\ forall now, exists e, fst (update now (run evs st)) = Raise e.
Proof.
  apply (bad_timestamp_stops_renderer FrequencySeries (PyStr "noon") []
           (run [Put (PySeq [PyStr "frequency"; PySeq [PyStr "noon"; PyNum 50]]);
                 Tick 0] initial_state)).
  - repeat split.
  - reflexivity.
  - intros (q & Hq). discriminate.
Defined.

(** ** The y-range of the position and velocity charts *)

Lemma Qlt_bool_true (x y : Q) : Qlt_bool x y = true -> x < y.
Proof.
  unfold Qlt_bool. intros H. apply negb_true_iff in H.
  apply Qnot_le_lt. intros Hle. apply Qle_bool_iff in Hle. congruence.
Qed.

Lemma Qlt_bool_false (x y : Q) : Qlt_bool x y = false -> y <= x.
Proof.
  unfold Qlt_bool. intros H. apply negb_false_iff in H. now apply Qle_bool_iff.
Qed.

Lemma fold_min_spec (qs : list Q) :
  forall q0,
    let m := fold_left (fun m x => if Qlt_bool x m then x else m) qs q0 in
    m <= q0 /\ Forall (Qle m) qs /\ In m (q0 :: qs).
Proof.
  induction qs as [| a qs IH]; intros q0; simpl.
  - split; [apply Qle_refl |]. split; [constructor | now left].
  - specialize (IH (if Qlt_bool a q0 then a else q0)). cbv zeta in IH.
    destruct IH as (Hle & Hall & Hin).
    destruct (Qlt_bool a q0) eqn:E.
    + apply Qlt_bool_true in E. split; [lra |]. split.
      * constructor; [exact Hle | exact Hall].
      * simpl in Hin. tauto.
    + apply Qlt_bool_false in E. split; [exact Hle |]. split.
      * constructor; [lra | exact Hall].
      * simpl in Hin. simpl. tauto.
Qed.

Lemma fold_max_spec (qs : list Q) :
  forall q0,
    let m := fold_left (fun m x => if Qlt_bool m x then x else m) qs q0 in
    q0 <= m /\ Forall (fun q => q <= m) qs /\ In m (q0 :: qs).
Proof.
  induction qs as [| a qs IH]; intros q0; simpl.
  - split; [apply Qle_refl |]. split; [constructor | now left].
  - specialize (IH (if Qlt_bool q0 a then a else q0)). cbv zeta in IH.
    destruct IH as (Hle & Hall & Hin).
    destruct (Qlt_bool q0 a) eqn:E.
    + apply Qlt_bool_true in E. split; [lra |]. split.
      * constructor; [exact Hle | exact Hall].
      * simpl in Hin. tauto.
    + apply Qlt_bool_false in E. split; [exact Hle |]. split.
      * constructor; [lra | exact Hall].
      * simpl in Hin. simpl. tauto.
Qed.

Lemma numbers_ok (xs : list pyval) (qs : list Q) :
  numbers xs = Ok qs -> xs = map PyNum qs.
Proof.
  revert qs. induction xs as [| x xs IH]; intros qs; simpl.
  - intros H. injection H as <-. reflexivity.
  - destruct x as [q | | |]; try discriminate.
    destruct (numbers xs) as [qs' |]; [| discriminate].
    intros H. injection H as <-. simpl. now rewrite (IH qs' eq_refl).
Qed.

(** Builtin [min] returns an element of the list, below all of them. *)
Lemma py_min_spec (xs : list pyval) (m : Q) :
  py_min xs = Ok m ->
  In (PyNum m) xs /\ forall q, In (PyNum q) xs -> m <= q.
Proof.
  unfold py_min. destruct (numbers xs) as [qs |] eqn:Hn; [| discriminate].
  apply numbers_ok in Hn. subst xs.
  destruct qs as [| q0 qs]; [discriminate |].
  intros H. injection H as <-.
  destruct (fold_min_spec qs q0) as (Hle & Hall & Hin). split.
  - now apply in_map.
  - intros q Hq. apply in_map_iff in Hq. destruct Hq as (q' & Hq' & Hin').
    injection Hq' as <-. destruct Hin' as [<- | Hin']; [exact Hle |].
    rewrite Forall_forall in Hall. now apply Hall.
Qed.

Lemma py_max_spec (xs : list pyval) (m : Q) :
  py_max xs = Ok m ->
  In (PyNum m) xs /\ forall q, In (PyNum q) xs -> q <= m.
Proof.
  unfold py_max. destruct (numbers xs) as [qs |] eqn:Hn; [| discriminate].
  apply numbers_ok in Hn. subst xs.
  destruct qs as [| q0 qs]; [discriminate |].
  intros H. injection H as <-.
  destruct (fold_max_spec qs q0) as (Hle & Hall & Hin). split.
  - now apply in_map.
  - intros q Hq. apply in_map_iff in Hq. destruct Hq as (q' & Hq' & Hin').
    injection Hq' as <-. destruct Hin' as [<- | Hin']; [exact Hle |].
    rewrite Forall_forall in Hall. now apply Hall.
Qed.

(** A limit below (above) a number. *)
Definition limit_le (l : limit) (q : Q) : Prop :=
  match l with
  | NegInf => True
  | Fin a => a <= q
  | PosInf => False
  end.

Definition limit_ge (l : limit) (q : Q) : Prop :=
  match l with
  | PosInf => True
  | Fin a => q <= a
  | NegInf => False
  end.

Lemma limit_min_le (acc : limit) (m q : Q) :
  limit_le acc q \/ m <= q -> limit_le (limit_min acc m) q.
Proof.
  destruct acc as [| a |]; simpl; [auto | | tauto].
  destruct (Qlt_bool m a) eqn:E; simpl.
  - apply Qlt_bool_true in E. intros [H | H]; lra.
  - apply Qlt_bool_false in E. intros [H | H]; lra.
Qed.

Lemma limit_max_ge (acc : limit) (m q : Q) :
  limit_ge acc q \/ q <= m -> limit_ge (limit_max acc m) q.
Proof.
  destruct acc as [| a |]; simpl; [tauto | | auto].
  destruct (Qlt_bool a m) eqn:E; simpl.
  - apply Qlt_bool_true in E. intros [H | H]; lra.
  - apply Qlt_bool_false in E. intros [H | H]; lra.
Qed.

Lemma limit_min_origin (acc : limit) (m : Q) :
  limit_min acc m = acc \/ limit_min acc m = Fin m.
Proof. destruct acc as [| a |]; simpl; auto. destruct (Qlt_bool m a); auto. Qed.

Lemma limit_max_origin (acc : limit) (m : Q) :
  limit_max acc m = acc \/ limit_max acc m = Fin m.
Proof. destruct acc as [| a |]; simpl; auto. destruct (Qlt_bool a m); auto. Qed.

Lemma column_in (i : nat) (rows col : list pyval) :
  column i rows = Ok col ->
  forall v, In v col <-> exists row, In row rows /\ py_getitem row i = Ok v.
Proof.
  revert col. induction rows as [| row rows IH]; intros col; simpl.
  - intros H. injection H as <-. intros v. split; [contradiction |].
    intros (row & [] & _).
  - destruct (py_getitem row i) as [x |] eqn:Hx; [| discriminate].
    destruct (column i rows) as [xs |]; [| discriminate].
    intros H. injection H as <-. intros v. simpl. rewrite (IH xs eq_refl v).
    split.
    + intros [<- | (row' & Hin & Hget)].
      * exists row. auto.
      * exists row'. auto.
    + intros (row' & [<- | Hin] & Hget).
      * left. congruence.
      * right. exists row'. auto.
Qed.

(** A number plotted for joint [i]: entry [i] of a buffered vector. *)
Definition plotted (rows : list pyval) (i : nat) (q : Q) : Prop :=
  exists row, In row rows /\ py_getitem row i = Ok (PyNum q).

Lemma plotted_column (i : nat) (rows col : list pyval) (q : Q) :
  column i rows = Ok col -> (In (PyNum q) col <-> plotted rows i q).
Proof. intros H. apply (column_in i rows col H). Qed.

Lemma plotted_app (rows1 rows2 : list pyval) (i : nat) (q : Q) :
  plotted (rows1 ++ rows2) i q <-> plotted rows1 i q \/ plotted rows2 i q.
Proof.
  unfold plotted. split.
  - intros (row & Hin & Hget). apply in_app_iff in Hin.
    destruct Hin; [left | right]; now exists row.
  - intros [(row & Hin & Hget) | (row & Hin & Hget)];
      exists row; (split; [apply in_app_iff; auto | exact Hget]).
Qed.

Lemma plot_positions_range (joints : list nat) :
  forall lo hi st lo' hi' st',
    plot_positions joints lo hi st = (Ok (lo', hi'), st') ->
    let rows := positions (bufs st) ++ desired_positions (bufs st) in
    (forall q, limit_le lo q -> limit_le lo' q)
    /\ (forall q, limit_ge hi q -> limit_ge hi' q)
    /\ (forall i q, In i joints -> plotted rows i q -> limit_le lo' q /\ limit_ge hi' q)
    /\ (lo' = lo \/ exists i q, In i joints /\ plotted rows i q /\ lo' = Fin q)
    /\ (hi' = hi \/ exists i q, In i joints /\ plotted rows i q /\ hi' = Fin q).
Proof.
  induction joints as [| i rest IH]; intros lo hi st lo' hi' st'; simpl.
  - intros H. injection H as <- <- <-.
    repeat split; auto; contradiction.
  - destruct (column i (positions (bufs st))) as [acts |] eqn:Ha; [| discriminate].
    destruct (column i (desired_positions (bufs st))) as [dess |] eqn:Hd;
      [| discriminate].
    destruct (py_min (acts ++ dess)) as [m |] eqn:Hm; [| discriminate].
    destruct (py_max (acts ++ dess)) as [x |] eqn:Hx; [| discriminate].
    intros Hrec. apply IH in Hrec. cbn [bufs with_ax_pos] in Hrec. cbv zeta in Hrec.
    destruct Hrec as (Hlo & Hhi & Hall & Hlo' & Hhi').
    destruct (py_min_spec _ _ Hm) as (Hmin & Hmle).
    destruct (py_max_spec _ _ Hx) as (Hxin & Hxle).
    assert (Hcol : forall q, In (PyNum q) (acts ++ dess)
                             <-> plotted (positions (bufs st)
                                          ++ desired_positions (bufs st)) i q).
    { intros q. rewrite in_app_iff, plotted_app.
      now rewrite (plotted_column i _ acts q Ha), (plotted_column i _ dess q Hd). }
    split; [| split; [| split; [| split]]].
    + intros q Hq. apply Hlo, limit_min_le. now left.
    + intros q Hq. apply Hhi, limit_max_ge. now left.
    + intros i' q [<- | Hin] Hp; [| now apply (Hall i')].
      apply Hcol in Hp. split.
      * apply Hlo, limit_min_le. right. now apply Hmle.
      * apply Hhi, limit_max_ge. right. now apply Hxle.
    + destruct Hlo' as [-> | (i' & q & Hin & Hp & ->)].
      * destruct (limit_min_origin lo m) as [-> | ->]; [now left |].
        right. exists i, m. split; [now left |]. split; [now apply Hcol | reflexivity].
      * right. exists i', q. auto.
    + destruct Hhi' as [-> | (i' & q & Hin & Hp & ->)].
      * destruct (limit_max_origin hi x) as [-> | ->]; [now left |].
        right. exists i, x. split; [now left |]. split; [now apply Hcol | reflexivity].
      * right. exists i', q. auto.
Qed.

Lemma plot_velocities_range (joints : list nat) :
  forall lo hi st lo' hi' st',
    plot_velocities joints lo hi st = (Ok (lo', hi'), st') ->
    let rows := velocities (bufs st) in
    (forall q, limit_le lo q -> limit_le lo' q)
    /\ (forall q, limit_ge hi q -> limit_ge hi' q)
    /\ (forall i q, In i joints -> plotted rows i q -> limit_le lo' q /\ limit_ge hi' q)
    /\ (lo' = lo \/ exists i q, In i joints /\ plotted rows i q /\ lo' = Fin q)
    /\ (hi' = hi \/ exists i q, In i joints /\ plotted rows i q /\ hi' = Fin q).
Proof.
  induction joints as [| i rest IH]; intros lo hi st lo' hi' st'; simpl.
  - intros H. injection H as <- <- <-.
    repeat split; auto; contradiction.
  - destruct (column i (velocities (bufs st))) as [vels |] eqn:Hv; [| discriminate].
    destruct (py_min vels) as [m |] eqn:Hm; [| discriminate].
    destruct (py_max vels) as [x |] eqn:Hx; [| discriminate].
    intros Hrec. apply IH in Hrec. cbn [bufs with_ax_vel] in Hrec. cbv zeta in Hrec.
    destruct Hrec as (Hlo & Hhi & Hall & Hlo' & Hhi').
    destruct (py_min_spec _ _ Hm) as (Hmin & Hmle).
    destruct (py_max_spec _ _ Hx) as (Hxin & Hxle).
    pose proof (fun q => plotted_column i _ vels q Hv) as Hcol.
    split; [| split; [| split; [| split]]].
    + intros q Hq. apply Hlo, limit_min_le. now left.
    + intros q Hq. apply Hhi, limit_max_ge. now left.
    + intros i' q [<- | Hin] Hp; [| now apply (Hall i')].
      apply Hcol in Hp. split.
      * apply Hlo, limit_min_le. right. now apply Hmle.
      * apply Hhi, limit_max_ge. right. now apply Hxle.
    + destruct Hlo' as [-> | (i' & q & Hin & Hp & ->)].
      * destruct (limit_min_origin lo m) as [-> | ->]; [now left |].
        right. exists i, m. split; [now left |]. split; [now apply Hcol | reflexivity].
      * right. exists i', q. auto.
    + destruct Hhi' as [-> | (i' & q & Hin & Hp & ->)].
      * destruct (limit_max_origin hi x) as [-> | ->]; [now left |].
        right. exists i, x. split; [now left |]. split; [now apply Hcol | reflexivity].
      * right. exists i', q. auto.
Qed.

(** X5. The y-range of the position chart is the tight range of what it
    plots.  When the position redraw runs and returns normally, the
    limits passed to [ax_pos.set_ylim] are finite, every plotted value
    (entry [i < num_joints] of a buffered actual or desired vector) lies
    between them, and both limits are themselves plotted values: no
    margin is added and no point is cut off. *)
Theorem position_limits_tight (now : Q) (st st' : state) :
  shown PositionSeries (bufs st) = true ->
  redraw_positions now st = (Ok tt, st') ->
  let rows := positions (bufs st) ++ desired_positions (bufs st) in
  exists lo hi,
    ylim (ax_pos st') = Some (Fin lo, Fin hi)
    /\ (forall i q, (i < num_joints)%nat -> plotted rows i q -> lo <= q /\ q <= hi)
    /\ (exists i, (i < num_joints)%nat /\ plotted rows i lo)
    /\ (exists i, (i < num_joints)%nat /\ plotted rows i hi).
Proof.
  intros Hg. unfold redraw_positions. cbn [shown] in Hg. rewrite Hg.
  cbv beta iota zeta. unfold bind, modify.
  match goal with
  | |- context [plot_positions ?j ?l ?h ?s] =>
      pose proof (plot_positions_spec j l h s) as Hspec;
      destruct (plot_positions j l h s) as [[[lo hi] | e] st1] eqn:Hplot
  end; [| discriminate].
  destruct Hspec as (_ & _ & _ & Hok).
  destruct (Hok lo hi eq_refl) as (Hfin & _).
  destruct Hfin as [[qlo ->] [qhi ->]];
    [discriminate | discriminate | left; discriminate |].
  apply plot_positions_range in Hplot. cbn [bufs with_ax_pos with_ax_pos_deg] in Hplot.
  cbv zeta in Hplot. destruct Hplot as (_ & _ & Hall & Hlo & Hhi).
  intros H. injection H as <-. exists qlo, qhi.
  split; [reflexivity |]. split; [| split].
  - intros i q Hi Hp. apply (Hall i q); [apply in_seq; lia | exact Hp].
  - destruct Hlo as [Hlo | (i & q & Hin & Hp & Hlo)]; [discriminate |].
    injection Hlo as ->. exists i. apply in_seq in Hin. split; [lia | exact Hp].
  - destruct Hhi as [Hhi | (i & q & Hin & Hp & Hhi)]; [discriminate |].
    injection Hhi as ->. exists i. apply in_seq in Hin. split; [lia | exact Hp].
Qed.

Lemma position_limits_tight_witness :
  let st := run [Put (encode (JointState 0 [1; 2; 3; 4; 5; 6; 7; 8; 9; 10]
                                           [0; 0; 0; 0; 0; 0; 0; 0; 0; 12]));
                 Tick (1 # 2)] initial_state in
  let rows := positions (bufs st) ++ desired_positions (bufs st) in
  exists lo hi,
    ylim (ax_pos (snd (redraw_positions 1 st))) = Some (Fin lo, Fin hi)
    /\ (forall i q, (i < num_joints)%nat -> plotted rows i q -> lo <= q /\ q <= hi)
    /\ (exists i, (i < num_joints)%nat /\ plotted rows i lo)
    /\ (exists i, (i < num_joints)%nat /\ plotted rows i hi).
Proof.
  intros st.
  apply (position_limits_tight 1 st (snd (redraw_positions 1 st))).
  - reflexivity.
  - vm_compute. reflexivity.
Defined.

(** X6. The y-range of the velocity chart is the tight range of what it
    plots: after a velocity redraw that returns normally the limits
    passed to [ax_vel.set_ylim] are finite, enclose entry [i < num_joints]
    of every buffered velocity vector, and are both attained. *)
Theorem velocity_limits_tight (now : Q) (st st' : state) :
  shown VelocitySeries (bufs st) = true ->
  redraw_velocities now st = (Ok tt, st') ->
  let rows := velocities (bufs st) in
  exists lo hi,
    ylim (ax_vel st') = Some (Fin lo, Fin hi)
    /\ (forall i q, (i < num_joints)%nat -> plotted rows i q -> lo <= q /\ q <= hi)
    /\ (exists i, (i < num_joints)%nat /\ plotted rows i lo)
    /\ (exists i, (i < num_joints)%nat /\ plotted rows i hi).
Proof.
  intros Hg. unfold redraw_velocities. cbn [shown] in Hg. rewrite Hg.
  cbv beta iota zeta. unfold bind, modify.
  match goal with
  | |- context [plot_velocities ?j ?l ?h ?s] =>
      pose proof (plot_velocities_spec j l h s) as Hspec;
      destruct (plot_velocities j l h s) as [[[lo hi] | e] st1] eqn:Hplot
  end; [| discriminate].
  destruct Hspec as (_ & _ & _ & Hok).
  destruct (Hok lo hi eq_refl) as (Hfin & _).
  destruct Hfin as [[qlo ->] [qhi ->]];
    [discriminate | discriminate | left; discriminate |].
  apply plot_velocities_range in Hplot. cbn [bufs with_ax_vel with_ax_vel_deg] in Hplot.
  cbv zeta in Hplot. destruct Hplot as (_ & _ & Hall & Hlo & Hhi).
  intros H. injection H as <-. exists qlo, qhi.
  split; [reflexivity |]. split; [| split].
  - intros i q Hi Hp. apply (Hall i q); [apply in_seq; lia | exact Hp].
  - destruct Hlo as [Hlo | (i & q & Hin & Hp & Hlo)]; [discriminate |].
    injection Hlo as ->. exists i. apply in_seq in Hin. split; [lia | exact Hp].
  - destruct Hhi as [Hhi | (i & q & Hin & Hp & Hhi)]; [discriminate |].
    injection Hhi as ->. exists i. apply in_seq in Hin. split; [lia | exact Hp].
Qed.

Lemma velocity_limits_tight_witness :
  let st := run [Put (encode (JointRate 0 [1; 2; 3; 4; 5; 6; 7; 8; 9; 10]));
                 Put (encode (JointRate (1 # 4) [3; 2; 1; 0; -1; -2; -3; -4; -5; -6]));
                 Tick (1 # 2)] initial_state in
  let rows := velocities (bufs st) in
  exists lo hi,
    ylim (ax_vel (snd (redraw_velocities 1 st))) = Some (Fin lo, Fin hi)
    /\ (forall i q, (i < num_joints)%nat -> plotted rows i q -> lo <= q /\ q <= hi)
    /\ (exists i, (i < num_joints)%nat /\ plotted rows i lo)
    /\ (exists i, (i < num_joints)%nat /\ plotted rows i hi).
Proof.
  intros st.
  apply (velocity_limits_tight 1 st (snd (redraw_velocities 1 st))).
  - reflexivity.
  - vm_compute. reflexivity.
Defined.

(** ** When a redraw raises *)

Lemma py_min_numbers (xs : list pyval) (m : Q) :
  py_min xs = Ok m -> Forall is_num xs.
Proof.
  unfold py_min. destruct (numbers xs) as [qs |] eqn:Hn; [| discriminate].
  intros _. apply numbers_ok in Hn. subst xs.
  apply Forall_forall. intros v Hv. apply in_map_iff in Hv.
  destruct Hv as (q & <- & _). now exists q.
Qed.

Lemma column_numeric (i : nat) (rows : list pyval) :
  (forall row, In row rows -> exists q, py_getitem row i = Ok (PyNum q)) ->
  exists qs, column i rows = Ok (map PyNum qs) /\ length qs = length rows.
Proof.
  induction rows as [| row rows IH]; intros Hall.
  - exists []. split; reflexivity.
  - destruct (Hall row (or_introl eq_refl)) as (q & Hq).
    destruct IH as (qs & Hcol & Hlen); [intros r Hr; apply Hall; now right |].
    exists (q :: qs). simpl. rewrite Hq, Hcol, Hlen. split; reflexivity.
Qed.

(** The vectors a chart can plot: a number at every joint index. *)
Definition plottable (rows : list pyval) : Prop :=
  forall i, (i < num_joints)%nat ->
  forall row, In row rows -> exists q, py_getitem row i = Ok (PyNum q).

Lemma column_row (i : nat) (rows col : list pyval) (row : pyval) :
  column i rows = Ok col -> In row rows ->
  exists v, py_getitem row i = Ok v /\ In v col.
Proof.
  intros Hcol Hrow. destruct (py_getitem row i) as [v | e] eqn:Hv.
  - exists v. split; [reflexivity |]. apply (column_in i _ _ Hcol). now exists row.
  - exfalso. revert col Hcol. induction rows as [| r rs IH]; [contradiction |].
    intros col. simpl. destruct Hrow as [-> | Hrow].
    + now rewrite Hv.
    + destruct (py_getitem r i); [| discriminate].
      destruct (column i rs); [| discriminate]. eauto.
Qed.

Lemma plot_positions_returns (joints : list nat) :
  forall lo hi st,
    positions (bufs st) <> [] ->
    (exists lims st', plot_positions joints lo hi st = (Ok lims, st'))
    <-> (forall i, In i joints ->
         forall row, In row (positions (bufs st) ++ desired_positions (bufs st)) ->
         exists q, py_getitem row i = Ok (PyNum q)).
Proof.
  induction joints as [| i rest IH]; intros lo hi st Hne.
  - split; [intros _ i [] | intros _; simpl; eexists _, _; reflexivity].
  - specialize (fun lo hi a => IH lo hi (with_ax_pos a st) Hne).
    cbn [bufs with_ax_pos] in IH. split.
    + intros (lims & st' & Hplot). simpl in Hplot.
      destruct (column i (positions (bufs st))) as [acts |] eqn:Ha; [| discriminate].
      destruct (column i (desired_positions (bufs st))) as [dess |] eqn:Hd;
        [| discriminate].
      destruct (py_min (acts ++ dess)) as [m |] eqn:Hm; [| discriminate].
      destruct (py_max (acts ++ dess)) as [x |] eqn:Hx; [| discriminate].
      apply py_min_numbers in Hm. rewrite Forall_forall in Hm.
      intros i' [<- | Hin] row Hrow.
      * assert (Hget : exists v, py_getitem row i = Ok v /\ In v (acts ++ dess)).
        { apply in_app_iff in Hrow. destruct Hrow as [Hrow | Hrow].
          - destruct (column_row i _ _ row Ha Hrow) as (v & Hv & Hin).
            exists v. split; [exact Hv | apply in_app_iff; now left].
          - destruct (column_row i _ _ row Hd Hrow) as (v & Hv & Hin).
            exists v. split; [exact Hv | apply in_app_iff; now right]. }
        destruct Hget as (v & -> & Hv). destruct (Hm v Hv) as (q & ->). now exists q.
      * apply (proj1 (IH _ _ _) (ex_intro _ lims (ex_intro _ st' Hplot)) i' Hin row Hrow).
    + intros Hall. simpl.
      destruct (column_numeric i (positions (bufs st))) as (qa & -> & Hla).
      { intros row Hrow. apply (Hall i (or_introl eq_refl)), in_app_iff. now left. }
      destruct (column_numeric i (desired_positions (bufs st))) as (qd & -> & Hld).
      { intros row Hrow. apply (Hall i (or_introl eq_refl)), in_app_iff. now right. }
      rewrite <- map_app.
      assert (Hne' : qa ++ qd <> []).
      { destruct qa; [| discriminate]. destruct (positions (bufs st)); simpl in *; congruence. }
      destruct (py_min_map _ Hne') as (m & ->).
      destruct (py_max_map _ Hne') as (x & ->).
      apply IH. intros i' Hin. apply Hall. now right.
Qed.


Lemma plottable_seq (rows : list pyval) :
  plottable rows
  <-> (forall i, In i (seq 0 num_joints) ->
       forall row, In row rows -> exists q, py_getitem row i = Ok (PyNum q)).
Proof.
  unfold plottable. split; intros H i Hi; apply H.
  - apply in_seq in Hi. lia.
  - apply in_seq. lia.
Qed.

(** Each chart's redraw changes only its own axes, and returns normally
    exactly when the chart is skipped or its vectors are plottable. *)
Lemma redraw_positions_returns (now : Q) (st : state) :
  bufs (snd (redraw_positions now st)) = bufs st
  /\ (fst (redraw_positions now st) = Ok tt
      <-> (shown PositionSeries (bufs st) = true ->
           plottable (positions (bufs st) ++ desired_positions (bufs st)))).
Proof.
  pose proof (redraw_positions_spec now st) as Hs. cbv zeta in Hs.
  destruct (redraw_positions now st) as [r st'] eqn:Hre.
  destruct Hs as (Hframe & _). destruct (frame_pos _ _ Hframe) as (Hb & _).
  split; [exact Hb |]. cbn [fst shown]. unfold redraw_positions in Hre.
  destruct (truthy (position_time (bufs st)) && truthy (positions (bufs st))
            && truthy (desired_positions (bufs st))) eqn:Hg.
  - assert (Hne : positions (bufs st) <> []).
    { destruct (positions (bufs st)); [| discriminate].
      rewrite andb_false_r in Hg. discriminate. }
    rewrite plottable_seq. cbv beta iota zeta in Hre. unfold bind, modify in Hre.
    match type of Hre with
    | context [plot_positions ?j ?l ?h ?s] =>
        pose proof (plot_positions_returns j l h s Hne) as Hiff;
        destruct (plot_positions j l h s) as [[[lo hi] | e] st1]
    end; cbn [bufs with_ax_pos with_ax_pos_deg] in Hiff;
      injection Hre as <- <-.
    + split; [intros _ _ | reflexivity]. apply Hiff. eexists _, _. reflexivity.
    + split; [discriminate |]. intros H.
      destruct (proj2 Hiff (H eq_refl)) as (lims & st2 & Hok). discriminate.
  - injection Hre as <- <-. split; [discriminate | reflexivity].
Qed.



(** ** What the draining loop prints *)

(** X8. Messages built from samples are never reported.  The draining
    loop prints only for items whose unpacking raises; an item that
    encodes a sample unpacks, whatever the length of its vectors.  So in
    every run fed with encoded samples nothing is printed: a joint vector
    of the wrong length is buffered silently (and shows up only when the
    redraw reads it). *)
Theorem encoded_samples_print_nothing (ins : list input) :
  forall st,
    parallel (bufs st) ->
    (exists ss, data_queue st = map encode ss) ->
    stdout (run (map to_event ins) st) = stdout st.
Proof.
  induction ins as [| i ins IH]; intros st Hpar (ss & Hq); [reflexivity |].
  simpl. destruct i as [s | now]; simpl.
  - rewrite IH; [reflexivity | exact Hpar |].
    exists (ss ++ [s]). simpl. now rewrite Hq, map_app.
  - pose proof (update_parallel now st Hpar) as Hpar'.
    destruct (update_bufs_queue now st Hpar) as (nf & np & nv & r & _ & _ & _ & Hup).
    cbv zeta in Hup. destruct r as [[] | e].
    + destruct Hup as (_ & Hq' & Hout).
      rewrite IH; [| exact Hpar' | exists []; exact Hq'].
      rewrite Hout, Hq, printed_encode. apply app_nil_r.
    + rewrite IH; [| exact Hpar' | exists ss; rewrite Hup; exact Hq].
      rewrite Hup. reflexivity.
Qed.

Lemma encoded_samples_print_nothing_witness :
  stdout (run (map to_event
                 [Send (JointState 0 [1; 2] [3]); Timer (1 # 2);
                  Send (Frequency (3 # 4) 50); Timer 1])
              initial_state)
  = stdout initial_state.
Proof.
  apply (encoded_samples_print_nothing
           [Send (JointState 0 [1; 2] [3]); Timer (1 # 2);
            Send (Frequency (3 # 4) 50); Timer 1] initial_state).
  - repeat split.
  - exists []. reflexivity.
Defined.

(** ** The frequency chart *)




(** ** The shape of what is plotted *)

(** [Axes.plot(x, y)] needs as many x as y values. *)
Definition well_shaped (a : artist) : Prop :=
  match a with
  | HLine _ _ => True
  | Line xs ys _ _ _ => length xs = length ys
  end.

(** Every line on the three charts is well shaped, and the twin degree
    axes carry no line at all. *)
Definition shapes (st : state) : Prop :=
  Forall well_shaped (artists (ax_freq st))
  /\ Forall well_shaped (artists (ax_pos st))
  /\ Forall well_shaped (artists (ax_vel st))
  /\ artists (ax_pos_deg st) = []
  /\ artists (ax_vel_deg st) = [].

Lemma column_length (i : nat) (rows col : list pyval) :
  column i rows = Ok col -> length col = length rows.
Proof.
  revert col. induction rows as [| row rows IH]; intros col; simpl.
  - intros H. injection H as <-. reflexivity.
  - destruct (py_getitem row i); [| discriminate].
    destruct (column i rows) as [xs |]; [| discriminate].
    intros H. injection H as <-. simpl. now rewrite (IH xs eq_refl).
Qed.

Lemma plot_positions_shapes (joints : list nat) :
  forall lo hi st,
    parallel (bufs st) ->
    Forall well_shaped (artists (ax_pos st)) ->
    Forall well_shaped (artists (ax_pos (snd (plot_positions joints lo hi st)))).
Proof.
  induction joints as [| i rest IH]; intros lo hi st Hpar Hall; [exact Hall |].
  simpl.
  destruct (column i (positions (bufs st))) as [acts |] eqn:Ha; [| exact Hall].
  destruct (column i (desired_positions (bufs st))) as [dess |] eqn:Hd; [| exact Hall].
  destruct (py_min (acts ++ dess)); [| exact Hall].
  destruct (py_max (acts ++ dess)); [| exact Hall].
  apply column_length in Ha, Hd. destruct Hpar as (Hf & Hp & Hpd & Hv).
  apply IH; [exact (conj Hf (conj Hp (conj Hpd Hv))) |].
  cbn [ax_pos with_ax_pos add_artist artists].
  repeat (apply Forall_app; split); [exact Hall | |];
    repeat constructor; simpl; congruence.
Qed.

Lemma plot_velocities_shapes (joints : list nat) :
  forall lo hi st,
    parallel (bufs st) ->
    Forall well_shaped (artists (ax_vel st)) ->
    Forall well_shaped (artists (ax_vel (snd (plot_velocities joints lo hi st)))).
Proof.
  induction joints as [| i rest IH]; intros lo hi st Hpar Hall; [exact Hall |].
  simpl.
  destruct (column i (velocities (bufs st))) as [vels |] eqn:Hv; [| exact Hall].
  destruct (py_min vels); [| exact Hall].
  destruct (py_max vels); [| exact Hall].
  apply column_length in Hv. destruct Hpar as (Hf & Hp & Hpd & Hvl).
  apply IH; [exact (conj Hf (conj Hp (conj Hpd Hvl))) |].
  cbn [ax_vel with_ax_vel add_artist artists].
  apply Forall_app. split; [exact Hall |].
  repeat constructor; simpl; congruence.
Qed.

Lemma redraw_frequency_shapes (now : Q) (st : state) :
  parallel (bufs st) -> shapes st -> shapes (snd (redraw_frequency now st)).
Proof.
  intros (Hf & _) (Sf & Sp & Sv & Spd & Svd). unfold redraw_frequency.
  destruct (truthy (time_data (bufs st)) && truthy (freq_data (bufs st)));
    cbn [snd]; [| repeat split; assumption].
  repeat split; try assumption. simpl. repeat constructor. exact Hf.
Qed.

Lemma redraw_positions_shapes (now : Q) (st : state) :
  parallel (bufs st) -> shapes st -> shapes (snd (redraw_positions now st)).
Proof.
  intros Hpar (Sf & Sp & Sv & Spd & Svd). unfold redraw_positions.
  destruct (truthy (position_time (bufs st)) && truthy (positions (bufs st))
            && truthy (desired_positions (bufs st)));
    cbv beta iota zeta; [| repeat split; assumption].
  unfold bind, modify.
  match goal with
  | |- context [plot_positions ?j ?l ?h ?s] =>
      pose proof (plot_positions_spec j l h s) as Hspec;
      pose proof (plot_positions_shapes j l h s Hpar (Forall_nil _)) as Hshape;
      destruct (plot_positions j l h s) as [[[lo hi] | e] st1]
  end; destruct Hspec as (Hframe & _); cbn [snd] in *;
    (assert (Hrest : ax_freq st1 = ax_freq st /\ ax_vel st1 = ax_vel st
                     /\ artists (ax_pos_deg st1) = []
                     /\ ax_vel_deg st1 = ax_vel_deg st)
      by (rewrite Hframe; repeat split));
    destruct Hrest as (E1 & E2 & E3 & E4);
    unfold shapes; cbn [ax_freq ax_pos ax_vel ax_pos_deg ax_vel_deg
                        with_ax_pos with_ax_pos_deg];
    rewrite ?E1, ?E2, ?E4; repeat split; assumption.
Qed.

Lemma redraw_velocities_shapes (now : Q) (st : state) :
  parallel (bufs st) -> shapes st -> shapes (snd (redraw_velocities now st)).
Proof.
  intros Hpar (Sf & Sp & Sv & Spd & Svd). unfold redraw_velocities.
  destruct (truthy (velocity_time (bufs st)) && truthy (velocities (bufs st)));
    cbv beta iota zeta; [| repeat split; assumption].
  unfold bind, modify.
  match goal with
  | |- context [plot_velocities ?j ?l ?h ?s] =>
      pose proof (plot_velocities_spec j l h s) as Hspec;
      pose proof (plot_velocities_shapes j l h s Hpar (Forall_nil _)) as Hshape;
      destruct (plot_velocities j l h s) as [[[lo hi] | e] st1]
  end; destruct Hspec as (Hframe & _); cbn [snd] in *;
    (assert (Hrest : ax_freq st1 = ax_freq st /\ ax_pos st1 = ax_pos st
                     /\ artists (ax_vel_deg st1) = []
                     /\ ax_pos_deg st1 = ax_pos_deg st)
      by (rewrite Hframe; repeat split));
    destruct Hrest as (E1 & E2 & E3 & E4);
    unfold shapes; cbn [ax_freq ax_pos ax_vel ax_pos_deg ax_vel_deg
                        with_ax_vel with_ax_vel_deg];
    rewrite ?E1, ?E2, ?E4; repeat split; assumption.
Qed.

Lemma shapes_same_axes (st s : state) :
  ax_freq s = ax_freq st -> ax_pos s = ax_pos st -> ax_pos_deg s = ax_pos_deg st ->
  ax_vel s = ax_vel st -> ax_vel_deg s = ax_vel_deg st ->
  shapes st -> shapes s.
Proof. unfold shapes. intros -> -> -> -> ->. exact (fun H => H). Qed.

Lemma redraw_all_shapes (now : Q) (st : state) :
  parallel (bufs st) -> shapes st -> shapes (snd (redraw_all now st)).
Proof.
  intros Hpar Hs. unfold redraw_all, bind, modify.
  pose proof (redraw_frequency_shapes now st Hpar Hs) as S1.
  pose proof (redraw_frequency_spec now st) as Hf.
  destruct (redraw_frequency now st) as [rf st1].
  destruct Hf as (-> & Hf1 & _). destruct (frame_freq _ _ Hf1) as (Hb1 & _).
  cbn [snd] in S1. rewrite <- Hb1 in Hpar.
  pose proof (redraw_positions_shapes now st1 Hpar S1) as S2.
  destruct (redraw_positions_returns now st1) as (Hb2 & _).
  destruct (redraw_positions now st1) as [[[] | e] st2]; cbn [snd] in *;
    [| exact S2].
  rewrite <- Hb2 in Hpar.
  pose proof (redraw_velocities_shapes now st2 Hpar S2) as S3.
  destruct (redraw_velocities now st2) as [[[] | e] st3]; cbn [snd] in *;
    [| exact S3].
  exact S3.
Qed.

Lemma update_shapes (now : Q) (st : state) :
  parallel (bufs st) -> shapes st -> shapes (snd (update now st)).
Proof.
  intros Hpar Hs. rewrite update_unfold.
  destruct (prune_all_spec now st Hpar) as (nf & np & nv & r & -> & _).
  set (pruned := drop_front VelocitySeries nv
                   (drop_front PositionSeries np
                      (drop_front FrequencySeries nf (bufs st)))).
  assert (Hpp : parallel pruned) by (repeat apply drop_front_parallel; exact Hpar).
  destruct r as [[] | e]; [| exact Hs].
  apply redraw_all_shapes.
  - rewrite drain_loop_spec. cbn [bufs with_bufs]. now apply drained_bufs_parallel.
  - rewrite drain_loop_spec. exact Hs.
Qed.

(** X10. Every line handed to matplotlib has as many x as y values.
    Each [plot] call pairs a time array with a data array (or with one
    column of the buffered vectors) of the same series, and the parallel
    arrays have equal lengths; so in every state reached from the initial
    one by queue messages and ticks (whatever the messages hold, and also
    when a redraw stops half way) all lines on the three charts are well
    shaped, and nothing is ever drawn on the twin degree axes.  A tick
    preserves this from any state with parallel arrays. *)
Theorem plotted_lines_well_shaped :
  (forall evs, shapes (run evs initial_state))
  /\ (forall now st, parallel (bufs st) -> shapes st -> shapes (snd (update now st))).
Proof.
  split; [| exact update_shapes].
  assert (Hinit : parallel (bufs initial_state) /\ shapes initial_state).
  { split; [repeat split |]. unfold shapes, initial_state.
    cbn [ax_freq ax_pos ax_vel ax_pos_deg ax_vel_deg artists].
    repeat split; repeat constructor. }
  revert Hinit. generalize initial_state. intros st Hinit evs. revert st Hinit.
  induction evs as [| ev evs IH]; intros st (Hpar & Hs); [exact Hs |].
  simpl. apply IH. destruct ev as [item | now]; cbn [step].
  - split; [exact Hpar | exact Hs].
  - split; [now apply update_parallel | now apply update_shapes].
Qed.
